(** * local-echo: a line editor on top of a write-only terminal

    A shallow embedding of [lib/Utils.js], [lib/HistoryController.js] and
    [lib/LocalEchoController.js].

    Conventions of the embedding:
    - a JavaScript string is a [string] (a sequence of code units, here
      8-bit ones); [undefined]/[null] results are [option]s;
    - a JavaScript number that is used as an offset or a count is a [Z];
      clamping and out-of-range behaviour is written out;
    - the controller is a record, its methods are state transformers, and
      the terminal is the list of chunks that were written to it. *)

From Stdlib Require Import ZArith List String Ascii Bool Lia DecimalString Sorted.
From Equations Require Import Equations.
Import ListNotations.

Local Open Scope string_scope.
Local Open Scope list_scope.
Local Open Scope Z_scope.

Set Implicit Arguments.

(* ===================================================================== *)
(** * JavaScript string primitives *)
(* ===================================================================== *)

Module JS.

(** Code units that the sources test for. *)
Definition LF : ascii := ascii_of_nat 10.
Definition CR : ascii := ascii_of_nat 13.
Definition TAB : ascii := ascii_of_nat 9.
Definition ESC : ascii := ascii_of_nat 27.
Definition DEL : ascii := ascii_of_nat 127.
Definition ETX : ascii := ascii_of_nat 3.
Definition BSLASH : ascii := ascii_of_nat 92.
Definition SQUOTE : ascii := ascii_of_nat 39.
Definition DQUOTE : ascii := ascii_of_nat 34.
Definition PIPE : ascii := ascii_of_nat 124.
Definition AMP : ascii := ascii_of_nat 38.
Definition SPACE : ascii := ascii_of_nat 32.

Definition str1 (c : ascii) : string := String c EmptyString.

(** [s.length] *)
Definition len (s : string) : Z := Z.of_nat (String.length s).

(** [s.charAt(i)]: the one-unit string at [i], the empty string when [i]
    is out of range. *)
Definition charAt (s : string) (i : Z) : string :=
  if i <? 0 then ""
  else match String.get (Z.to_nat i) s with
       | Some c => str1 c
       | None => ""
       end.

(** [s.charCodeAt(0)], [None] standing for [NaN]. *)
Definition charCodeAt0 (s : string) : option Z :=
  match s with
  | EmptyString => None
  | String c _ => Some (Z.of_nat (nat_of_ascii c))
  end.

(** [s.substr(start, length)]: a negative [start] counts from the end, a
    [start] past the end gives the empty string, the length is clamped. *)
Definition substr2 (s : string) (start length : Z) : string :=
  let size := len s in
  let from := if start <? 0 then Z.max (size + start) 0 else Z.min start size in
  let count := Z.min (Z.max length 0) size in
  let upto := Z.min (from + count) size in
  String.substring (Z.to_nat from) (Z.to_nat (upto - from)) s.

(** [s.substr(start)] *)
Definition substr (s : string) (start : Z) : string :=
  substr2 s start (len s).

(** [s.slice(b, e)] *)
Definition slice (s : string) (b e : Z) : string :=
  let size := len s in
  let from := if b <? 0 then Z.max (size + b) 0 else Z.min b size in
  let upto := if e <? 0 then Z.max (size + e) 0 else Z.min e size in
  String.substring (Z.to_nat from) (Z.to_nat (upto - from)) s.

(** [s.startsWith(p)] *)
Definition startsWith (s p : string) : bool := String.prefix p s.

(** [s.endsWith(p)] *)
Definition endsWith (s p : string) : bool :=
  (len p <=? len s) && String.eqb (substr s (len s - len p)) p.

(** White space and line terminators, as [String.prototype.trim] strips
    them (the ones that fit a code unit below 256). *)
Definition isWhiteSpace (c : ascii) : bool :=
  let n := nat_of_ascii c in
  (Nat.leb 9 n && Nat.leb n 13) || Nat.eqb n 32 || Nat.eqb n 160.

Fixpoint trimStart (s : string) : string :=
  match s with
  | EmptyString => EmptyString
  | String c s' => if isWhiteSpace c then trimStart s' else s
  end.

(** Drops the white space at the end: a character is kept when it is not
    white space or something is kept after it. *)
Fixpoint trimEnd (s : string) : string :=
  match s with
  | EmptyString => EmptyString
  | String c s' =>
      match trimEnd s' with
      | EmptyString => if isWhiteSpace c then EmptyString else str1 c
      | rest => String c rest
      end
  end.

(** [s.trim()] *)
Definition trim (s : string) : string := trimEnd (trimStart s).

(** [s.repeat(n)] for a count that is not negative; the caller tests for
    the negative count, which is a RangeError. *)
Definition repeat (s : string) (n : Z) : string :=
  String.concat "" (List.repeat s (Z.to_nat n)).

(** The number of matches of a one-character global regular expression,
    [(s.match(/c/g) || []).length]. *)
Fixpoint countChar (c : ascii) (s : string) : Z :=
  match s with
  | EmptyString => 0
  | String d s' => (if Ascii.eqb c d then 1 else 0) + countChar c s'
  end.

End JS.

Import JS.

(* ===================================================================== *)
(** * lib/Utils.js: text geometry *)
(* ===================================================================== *)

(** The class [\w] of a regular expression without flags. *)
Definition isWordChar (c : ascii) : bool :=
  let n := nat_of_ascii c in
  (Nat.leb 48 n && Nat.leb n 57)
  || (Nat.leb 65 n && Nat.leb n 90)
  || (Nat.leb 97 n && Nat.leb n 122)
  || Nat.eqb n 95.

(** The successive matches of [/\w+/g] over [input], read from left to
    right: [i] is the index of the first character of [s] in the input and
    [inWord] says that a match is being extended.  Each maximal run of word
    characters is one match; its [index] is pushed when [leftSide] holds,
    [index + match[0].length] otherwise. *)
Fixpoint wordBoundaries_from (leftSide : bool) (s : string) (i : Z)
    (inWord : bool) : list Z :=
  match s with
  | EmptyString => if inWord && negb leftSide then [i] else []
  | String c s' =>
      if isWordChar c then
        (if negb inWord && leftSide then [i] else [])
          ++ wordBoundaries_from leftSide s' (i + 1) true
      else
        (if inWord && negb leftSide then [i] else [])
          ++ wordBoundaries_from leftSide s' (i + 1) false
  end.

Definition wordBoundaries (input : string) (leftSide : bool) : list Z :=
  wordBoundaries_from leftSide input 0 false.

(** [wordBoundaries(input, true).reverse().find(x => x < offset)], with 0
    when nothing is found. *)
Definition closestLeftBoundary (input : string) (offset : Z) : Z :=
  match List.find (fun x => x <? offset) (List.rev (wordBoundaries input true)) with
  | None => 0
  | Some found => found
  end.

(** [wordBoundaries(input, false).find(x => x > offset)], with the length of
    the input when nothing is found. *)
Definition closestRightBoundary (input : string) (offset : Z) : Z :=
  match List.find (fun x => x >? offset) (wordBoundaries input false) with
  | None => len input
  | Some found => found
  end.

(** The character of [input] at the index [k] is a word character; there is
    none past the end. *)
Definition wordAt (input : string) (k : nat) : bool :=
  match String.get k input with
  | Some c => isWordChar c
  | None => false
  end.

(** The character before the index [k] is a word character; before the
    index 0 there is none. *)
Definition wordBefore (input : string) (k : nat) : bool :=
  match k with
  | O => false
  | S k' => wordAt input k'
  end.

Record ColRow : Type := mkColRow { row : Z; col : Z }.

(** One turn of the loop of [offsetToColRow] on the character [chr]. *)
Definition advance (maxCols : Z) (chr : string) (p : ColRow) : ColRow :=
  if String.eqb chr (str1 LF) then
    {| row := row p + 1; col := 0 |}
  else
    let col1 := col p + 1 in
    if col1 >? maxCols then {| row := row p + 1; col := 0 |}
    else {| row := row p; col := col1 |}.

(** [n] more turns of the loop [for (i = ...; i < offset; ++i)], the loop
    variable being [i] and the position so far [p]. *)
Fixpoint offsetToColRow_loop (input : string) (maxCols : Z) (n : nat) (i : Z)
    (p : ColRow) : ColRow :=
  match n with
  | O => p
  | S n' =>
      offsetToColRow_loop input maxCols n' (i + 1)
        (advance maxCols (charAt input i) p)
  end.

Definition offsetToColRow (input : string) (offset maxCols : Z) : ColRow :=
  offsetToColRow_loop input maxCols (Z.to_nat offset) 0 {| row := 0; col := 0 |}.

Definition countLines (input : string) (maxCols : Z) : Z :=
  row (offsetToColRow input (len input) maxCols) + 1.

(* ===================================================================== *)
(** * lib/Utils.js: the continuation predicate *)
(* ===================================================================== *)

(** [input.split(/(\|\||\||&&)/g)]: the pieces between the operators, the
    captured operators in between.  At every position the alternatives are
    tried in the order of the expression; [seg] is the piece being read. *)
Fixpoint splitOperators_from (s : string) (seg : string) : list string :=
  match s with
  | EmptyString => [seg]
  | String c s' =>
      if Ascii.eqb c PIPE then
        match s' with
        | String d s'' =>
            if Ascii.eqb d PIPE
            then seg :: "||" :: splitOperators_from s'' ""
            else seg :: "|" :: splitOperators_from s' ""
        | EmptyString => seg :: "|" :: splitOperators_from s' ""
        end
      else if Ascii.eqb c AMP then
        match s' with
        | String d s'' =>
            if Ascii.eqb d AMP
            then seg :: "&&" :: splitOperators_from s'' ""
            else splitOperators_from s' (seg ++ str1 c)%string
        | EmptyString => splitOperators_from s' (seg ++ str1 c)%string
        end
      else splitOperators_from s' (seg ++ str1 c)%string
  end.

Definition splitOperators (input : string) : list string :=
  splitOperators_from input "".

(** [array.pop()] of an array of strings that is not empty. *)
Definition popString (l : list string) : string := List.last l "".

(** The first two tests of [isIncompleteInput] after the blank test:
    [(input.match(/'/g) || []).length % 2 !== 0], and the same for the
    double quote. *)
Definition danglingSingleQuote (input : string) : bool :=
  negb (countChar SQUOTE input mod 2 =? 0).

Definition danglingDoubleQuote (input : string) : bool :=
  negb (countChar DQUOTE input mod 2 =? 0).

Definition danglingOperator (input : string) : bool :=
  String.eqb (trim (popString (splitOperators input))) "".

Definition tailingSlash (input : string) : bool :=
  endsWith input (str1 BSLASH)
  && negb (endsWith input (String BSLASH (str1 BSLASH))).

Definition isIncompleteInput (input : string) : bool :=
  if String.eqb (trim input) "" then false
  else if danglingSingleQuote input then true
  else if danglingDoubleQuote input then true
  else if danglingOperator input then true
  else if tailingSlash input then true
  else false.

(** The count that the specification words: the occurrences of the quote [q]
    that no backslash escapes, a backslash escaping the character after it
    unless it is escaped itself.  [escaped] says that the character read
    next is escaped.  The code has no such count; it is compared with
    [countChar] below. *)
Fixpoint countUnescaped (q : ascii) (s : string) (escaped : bool) : Z :=
  match s with
  | EmptyString => 0
  | String c s' =>
      if escaped then countUnescaped q s' false
      else if Ascii.eqb c BSLASH then countUnescaped q s' true
      else (if Ascii.eqb c q then 1 else 0) + countUnescaped q s' false
  end.

(* ===================================================================== *)
(** * lib/Utils.js: tokens and completion *)
(* ===================================================================== *)

Definition atLineEnd (s : string) : bool :=
  match s with
  | EmptyString => true
  | String c _ => Ascii.eqb c LF || Ascii.eqb c CR
  end.

(** [input.match(/[^\\][ \t]$/m) != null]: somewhere a character other than
    a backslash is followed by a blank or a tab that ends a line. *)
Fixpoint hasTailingWhitespace (input : string) : bool :=
  match input with
  | String a ((String b rest) as s') =>
      (negb (Ascii.eqb a BSLASH)
       && (Ascii.eqb b SPACE || Ascii.eqb b TAB)
       && atLineEnd rest)
      || hasTailingWhitespace s'
  | _ => false
  end.

(** An entry of the array that [parse] of shell-quote returns: a string, or
    an object (an operator, a glob, a comment) tagged by [kind]. *)
Inductive token : Type :=
| TStr (s : string)
| TObj (kind : string).

(** [t || ""] for an entry [t] that may be [undefined]. *)
Definition orEmpty (t : option token) : token :=
  match t with
  | None => TStr ""
  | Some (TStr "") => TStr ""
  | Some t' => t'
  end.

(** The string that [startsWith] makes of its argument. *)
Definition tokenToString (t : token) : string :=
  match t with
  | TStr s => s
  | TObj _ => "[object Object]"
  end.

(** [t.length] used as the start of a [substr]: an object has no length and
    [substr(undefined)] starts at 0. *)
Definition tokenLength (t : token) : Z :=
  match t with
  | TStr s => len s
  | TObj _ => 0
  end.

(** [array[i]] *)
Definition at_index {A : Type} (l : list A) (i : Z) : option A :=
  if i <? 0 then None else List.nth_error l (Z.to_nat i).

(** What a call of a completion provider does: it returns an array of
    candidates or it throws. *)
Inductive outcome : Type :=
| Returned (candidates : list string)
| Thrown (error : string).

(** What [collectAutocompleteCandidates] does besides computing its result:
    it calls providers and writes to [console.error]. *)
Inductive effect : Type :=
| Invoked (id : nat)
| ConsoleError (error : string).

(** The result of [getSharedFragment]: a string, [null], or the TypeError of
    [candidates[0].length] on an empty array. *)
Inductive fragmentResult : Type :=
| Fragment (s : string)
| Null
| TypeError.

(** How the [for] loop of [getSharedFragment] ends. *)
Inductive loopExit : Type :=
| ReturnNull
| ReturnOld
| LoopDone.

(** The loop over [candidates]: the first candidate that does not start with
    [oldFragment] makes the function return [null], the first one that does
    not start with [fragment] makes it return [oldFragment]. *)
Fixpoint sharedLoop (oldFragment fragment : string) (candidates : list string)
    : loopExit :=
  match candidates with
  | [] => LoopDone
  | c :: rest =>
      if negb (startsWith c oldFragment) then ReturnNull
      else if negb (startsWith c fragment) then ReturnOld
      else sharedLoop oldFragment fragment rest
  end.

(** [fragment + candidates[0].slice(fragment.length, fragment.length + 1)] *)
Definition extend (fragment c0 : string) : string :=
  (fragment ++ slice c0 (len fragment) (len fragment + 1))%string.

(** [getSharedFragment]: the recursion ends because every call extends the
    fragment by one character of the first candidate. *)
Equations? getSharedFragment (fragment : string) (candidates : list string)
  : fragmentResult
  by wf (String.length (List.hd "" candidates) - String.length fragment)%nat lt :=
  getSharedFragment fragment [] := TypeError;
  getSharedFragment fragment (c0 :: rest)
    with Z_ge_dec (len fragment) (len c0) := {
    | left _ => Fragment fragment
    | right _ with sharedLoop fragment (extend fragment c0) (c0 :: rest) := {
      | ReturnNull => Null
      | ReturnOld => Fragment fragment
      | LoopDone => getSharedFragment (extend fragment c0) (c0 :: rest) } }.
Proof.
  assert (Happ : forall a b, String.length (a ++ b)%string
                             = (String.length a + String.length b)%nat).
  { intros a b. induction a as [|x a IH]; simpl; [reflexivity | now rewrite IH]. }
  assert (Hsub : forall s k, (k < String.length s)%nat ->
                             String.length (String.substring k 1 s) = 1%nat).
  { intros s. induction s as [|x s IH]; intros k Hk; simpl in Hk; [lia|].
    destruct k as [|k]; simpl.
    - destruct s; reflexivity.
    - apply IH. lia. }
  unfold extend, slice, len in *. rewrite Happ.
  replace (Z.of_nat (String.length fragment) <? 0) with false
    by (symmetry; apply Z.ltb_ge; lia).
  replace (Z.of_nat (String.length fragment) + 1 <? 0) with false
    by (symmetry; apply Z.ltb_ge; lia).
  rewrite !Z.min_l by lia.
  replace (Z.to_nat (Z.of_nat (String.length fragment) + 1
                     - Z.of_nat (String.length fragment))) with 1%nat by lia.
  rewrite Nat2Z.id, Hsub by lia. lia.
Qed.

(** The default order of [Array.prototype.sort] on strings: by code units. *)
Fixpoint insertSorted (x : string) (l : list string) : list string :=
  match l with
  | [] => [x]
  | y :: rest => if String.leb x y then x :: l else y :: insertSorted x rest
  end.

Definition sortStrings (l : list string) : list string :=
  List.fold_right insertSorted [] l.

Section Completion.

(** The extra arguments bound to a provider are opaque values. *)
Variable Value : Type.

(** [parse] of the shell-quote package. *)
Variable parse : string -> list token.

(** An entry [{ fn, args }] of the registry; [fn_id] stands for the
    identity of the function object. *)
Record handler : Type := mkHandler {
  fn_id : nat;
  fn : Z -> list token -> list Value -> outcome;
  args : list Value
}.

(** [tokens.pop() || ""] after the two early returns. *)
Definition getLastToken (input : string) : token :=
  if String.eqb (trim input) "" then TStr ""
  else if hasTailingWhitespace input then TStr ""
  else
    let tokens := parse input in
    orEmpty (at_index tokens (Z.of_nat (List.length tokens) - 1)).

(** The token index and the expression that the candidates are asked and
    filtered for. *)
Definition completionTarget (input : string) : Z * token :=
  let tokens := parse input in
  let index := Z.of_nat (List.length tokens) - 1 in
  let expr := orEmpty (at_index tokens index) in
  if String.eqb (trim input) "" then (0, TStr "")
  else if hasTailingWhitespace input then (index + 1, TStr "")
  else (index, expr).

(** The callback of [callbacks.reduce]: the accumulator is the array of
    candidates, paired here with the effects so far. *)
Definition reducer (index : Z) (tokens : list token)
    (acc : list string * list effect) (h : handler)
    : list string * list effect :=
  let (candidates, effects) := acc in
  match fn h index tokens (args h) with
  | Returned l => (candidates ++ l, effects ++ [Invoked (fn_id h)])
  | Thrown e =>
      (candidates, effects ++ [Invoked (fn_id h); ConsoleError e])
  end.

Definition collectAutocompleteCandidates (callbacks : list handler)
    (input : string) : list string * list effect :=
  let tokens := parse input in
  let (index, expr) := completionTarget input in
  let (all, effects) :=
    List.fold_left (reducer index tokens) callbacks ([], []) in
  (List.filter (fun txt => startsWith txt (tokenToString expr)) all, effects).

(** What a provider contributes to the candidates: what it returns, and
    nothing when it throws. *)
Definition contribution (index : Z) (tokens : list token) (h : handler)
    : list string :=
  match fn h index tokens (args h) with
  | Returned l => l
  | Thrown _ => []
  end.

(** The providers that were called, in the order of the calls. *)
Fixpoint invocations (effects : list effect) : list nat :=
  match effects with
  | [] => []
  | Invoked id :: rest => id :: invocations rest
  | ConsoleError _ :: rest => invocations rest
  end.

(** The errors that were reported, in the order of the reports. *)
Fixpoint reports (effects : list effect) : list string :=
  match effects with
  | [] => []
  | Invoked _ :: rest => reports rest
  | ConsoleError e :: rest => e :: reports rest
  end.

(** The error of a provider that throws. *)
Definition failure (index : Z) (tokens : list token) (h : handler)
    : list string :=
  match fn h index tokens (args h) with
  | Returned _ => []
  | Thrown e => [e]
  end.

End Completion.

(* ===================================================================== *)
(** * lib/HistoryController.js *)
(* ===================================================================== *)

Module HistoryController.

Record t : Type := mk { size : Z; entries : list string; cursor : Z }.

Definition create (size : Z) : t :=
  {| size := size; entries := []; cursor := 0 |}.

(** [entry == lastEntry], where [lastEntry] is [undefined] when there is no
    entry. *)
Definition looseEq (entry : string) (lastEntry : option string) : bool :=
  match lastEntry with
  | None => false
  | Some e => String.eqb entry e
  end.

(** [this.entries[this.entries.length - 1]] *)
Definition lastEntry (h : t) : option string :=
  at_index (entries h) (Z.of_nat (List.length (entries h)) - 1).

(** [push]: [entries.pop(0)] is [Array.prototype.pop], which takes no
    argument and removes the last element. *)
Definition push (entry : string) (h : t) : t :=
  if String.eqb (trim entry) "" then h
  else
    if looseEq entry (lastEntry h) then h
    else
      let pushed := entries h ++ [entry] in
      let kept :=
        if Z.of_nat (List.length pushed) >? size h
        then List.removelast pushed
        else pushed in
      {| size := size h; entries := kept;
         cursor := Z.of_nat (List.length kept) |}.

Definition rewind (h : t) : t :=
  {| size := size h; entries := entries h;
     cursor := Z.of_nat (List.length (entries h)) |}.

Definition getPrevious (h : t) : option string * t :=
  let idx := Z.max 0 (cursor h - 1) in
  (at_index (entries h) idx,
   {| size := size h; entries := entries h; cursor := idx |}).

Definition getNext (h : t) : option string * t :=
  let idx := Z.min (Z.of_nat (List.length (entries h))) (cursor h + 1) in
  (at_index (entries h) idx,
   {| size := size h; entries := entries h; cursor := idx |}).

(** Pushing the entries of a list, the first one first. *)
Definition pushAll (l : list string) (h : t) : t :=
  List.fold_left (fun acc entry => push entry acc) l h.

(** The entries of [l] are not blank and each differs from the one before
    it, [before] being the entry before the first one. *)
Fixpoint pushable (before : option string) (l : list string) : bool :=
  match l with
  | [] => true
  | entry :: rest =>
      negb (String.eqb (trim entry) "")
      && negb (looseEq entry before)
      && pushable (Some entry) rest
  end.

End HistoryController.

(* ===================================================================== *)
(** * lib/LocalEchoController.js *)
(* ===================================================================== *)

(** How a call on a state ends: it returns, it throws (the state is the one
    at the throw), or it never returns. *)
Inductive run (S : Type) : Type :=
| Done (s : S)
| Raise (error : string) (s : S)
| Hang.

Arguments Done {S} s.
Arguments Raise {S} error s.
Arguments Hang {S}.

Definition bind {S : Type} (m : run S) (k : S -> run S) : run S :=
  match m with
  | Done s => k s
  | Raise e s => Raise e s
  | Hang => Hang
  end.

Notation "x <- m ;; k" := (bind m (fun x => k))
  (at level 61, m at next level, right associativity).

(** [items.reduce((width, item) => Math.max(width, item.length), 0) + padding] *)
Definition itemWidthOf (items : list string) (padding : Z) : Z :=
  List.fold_left (fun width item => Z.max width (len item)) items 0 + padding.

(** [Math.floor(cols / itemWidth)]; [None] when the quotient is not a finite
    number (the division by 0). *)
Definition wideColsOf (cols itemWidth : Z) : option Z :=
  if itemWidth =? 0 then None else Some (cols / itemWidth).

(** [Math.ceil(n / wideCols)] for [n > 0]; [None] stands for [Infinity], the
    quotient by 0.  The quotient by a number that is not finite is 0 or
    [NaN], and the loop over the rows runs for neither. *)
Definition wideRowsOf (n : Z) (wideCols : option Z) : option Z :=
  match wideCols with
  | None => Some 0
  | Some 0 => None
  | Some w => Some (- ((- n) / w))
  end.

(** [message.replace(/[\r\n]+/g, by)]: every run of line breaks becomes
    [by]; [inRun] says that the previous character was a line break. *)
Fixpoint collapseBreaks (by_ : string) (s : string) (inRun : bool) : string :=
  match s with
  | EmptyString => EmptyString
  | String c s' =>
      if Ascii.eqb c CR || Ascii.eqb c LF then
        if inRun then collapseBreaks by_ s' true
        else (by_ ++ collapseBreaks by_ s' true)%string
      else String c (collapseBreaks by_ s' false)
  end.

(** [s.replace(/\n/g, by)] *)
Fixpoint replaceLF (by_ : string) (s : string) : string :=
  match s with
  | EmptyString => EmptyString
  | String c s' =>
      if Ascii.eqb c LF then (by_ ++ replaceLF by_ s')%string
      else String c (replaceLF by_ s')
  end.

(** [Array.from(s)] for a string of one-unit characters. *)
Fixpoint chars (s : string) : list string :=
  match s with
  | EmptyString => []
  | String c s' => str1 c :: chars s'
  end.

Definition CRLF : string := String CR (str1 LF).
Definition CSI (final : string) : string := String ESC ("[" ++ final)%string.

(** The decimal notation of a count, as a template literal prints it. *)
Definition decimal (n : Z) : string :=
  DecimalString.NilZero.string_of_int (Z.to_int n).

Record TermSize : Type := mkTermSize { cols : Z; rows : Z }.

(** [_activePrompt]: its [resolve] and [reject] are the two ways of settling
    the promise of [read], recorded in [settled] below. *)
Record ActivePrompt : Type := mkActivePrompt {
  prompt : string;
  continuationPrompt : string
}.

(** What was chained with [then] on the promise of a [readChar]. *)
Inductive reaction : Type :=
| DisplayAll (candidates : list string)
| Resume (cursor : Z).

Record ActiveCharPrompt : Type := mkActiveCharPrompt {
  charPrompt : string;
  reactions : list reaction
}.

Inductive settlement : Type :=
| LineResolved (value : string)
| LineRejected (reason : string)
| CharResolved (value : string)
| CharRejected (reason : string).

Section Controller.

Variable Value : Type.
Variable parse : string -> list token.

(** The fields of a controller; [term] is what was written to the
    terminal, the oldest chunk first, and [settled] the promises settled
    so far. *)
Record controller : Type := mkController {
  history : HistoryController.t;
  maxAutocompleteEntries : Z;
  this_isIncompleteInput : string -> bool;
  _autocompleteHandlers : list (handler Value);
  _active : bool;
  _input : string;
  _cursor : Z;
  _activePrompt : option ActivePrompt;
  _activeCharPrompt : option ActiveCharPrompt;
  _termSize : TermSize;
  term : list string;
  settled : list settlement
}.

Definition set_history (h : HistoryController.t) (c : controller) :=
  mkController h (maxAutocompleteEntries c) (this_isIncompleteInput c)
    (_autocompleteHandlers c) (_active c) (_input c) (_cursor c)
    (_activePrompt c) (_activeCharPrompt c) (_termSize c) (term c) (settled c).

Definition set_handlers (l : list (handler Value)) (c : controller) :=
  mkController (history c) (maxAutocompleteEntries c) (this_isIncompleteInput c)
    l (_active c) (_input c) (_cursor c)
    (_activePrompt c) (_activeCharPrompt c) (_termSize c) (term c) (settled c).

Definition set_active (b : bool) (c : controller) :=
  mkController (history c) (maxAutocompleteEntries c) (this_isIncompleteInput c)
    (_autocompleteHandlers c) b (_input c) (_cursor c)
    (_activePrompt c) (_activeCharPrompt c) (_termSize c) (term c) (settled c).

Definition set_input (s : string) (c : controller) :=
  mkController (history c) (maxAutocompleteEntries c) (this_isIncompleteInput c)
    (_autocompleteHandlers c) (_active c) s (_cursor c)
    (_activePrompt c) (_activeCharPrompt c) (_termSize c) (term c) (settled c).

Definition set_cursor (n : Z) (c : controller) :=
  mkController (history c) (maxAutocompleteEntries c) (this_isIncompleteInput c)
    (_autocompleteHandlers c) (_active c) (_input c) n
    (_activePrompt c) (_activeCharPrompt c) (_termSize c) (term c) (settled c).

Definition set_activePrompt (p : option ActivePrompt) (c : controller) :=
  mkController (history c) (maxAutocompleteEntries c) (this_isIncompleteInput c)
    (_autocompleteHandlers c) (_active c) (_input c) (_cursor c)
    p (_activeCharPrompt c) (_termSize c) (term c) (settled c).

Definition set_activeCharPrompt (p : option ActiveCharPrompt) (c : controller) :=
  mkController (history c) (maxAutocompleteEntries c) (this_isIncompleteInput c)
    (_autocompleteHandlers c) (_active c) (_input c) (_cursor c)
    (_activePrompt c) p (_termSize c) (term c) (settled c).

Definition set_termSize (sz : TermSize) (c : controller) :=
  mkController (history c) (maxAutocompleteEntries c) (this_isIncompleteInput c)
    (_autocompleteHandlers c) (_active c) (_input c) (_cursor c)
    (_activePrompt c) (_activeCharPrompt c) sz (term c) (settled c).

(** [this.term.write(data)] *)
Definition write (data : string) (c : controller) :=
  mkController (history c) (maxAutocompleteEntries c) (this_isIncompleteInput c)
    (_autocompleteHandlers c) (_active c) (_input c) (_cursor c)
    (_activePrompt c) (_activeCharPrompt c) (_termSize c)
    (term c ++ [data]) (settled c).

Definition settle (s : settlement) (c : controller) :=
  mkController (history c) (maxAutocompleteEntries c) (this_isIncompleteInput c)
    (_autocompleteHandlers c) (_active c) (_input c) (_cursor c)
    (_activePrompt c) (_activeCharPrompt c) (_termSize c)
    (term c) (settled c ++ [s]).

(** Several chunks written one after the other. *)
Definition emit (out : list string) (c : controller) :=
  mkController (history c) (maxAutocompleteEntries c) (this_isIncompleteInput c)
    (_autocompleteHandlers c) (_active c) (_input c) (_cursor c)
    (_activePrompt c) (_activeCharPrompt c) (_termSize c)
    (term c ++ out) (settled c).

(** [for (i = from; i < to; ++i) this.term.write(data)] *)
Definition writeTimes (from to : Z) (data : string) (c : controller) :=
  Nat.iter (Z.to_nat (to - from)) (write data) c.

(** The options of the constructor: a number that is missing or 0 gives
    the default, and so does a missing predicate. *)
Record options : Type := mkOptions {
  historySize : option Z;
  opt_maxAutocompleteEntries : option Z;
  opt_isIncompleteInput : option (string -> bool)
}.

Definition orDefault (o : option Z) (d : Z) : Z :=
  match o with
  | None => d
  | Some 0 => d
  | Some n => n
  end.

(** [new LocalEchoController(term, options)]; [size] is the size of the
    terminal that [attach] reads, if there is a terminal. *)
Definition create (size : option TermSize) (o : options) : controller :=
  {| history := HistoryController.create (orDefault (historySize o) 10);
     maxAutocompleteEntries := orDefault (opt_maxAutocompleteEntries o) 100;
     this_isIncompleteInput :=
       match opt_isIncompleteInput o with
       | Some f => f
       | None => isIncompleteInput
       end;
     _autocompleteHandlers := [];
     _active := false;
     _input := "";
     _cursor := 0;
     _activePrompt := None;
     _activeCharPrompt := None;
     _termSize :=
       match size with
       | Some sz => sz
       | None => {| cols := 0; rows := 0 |}
       end;
     term := [];
     settled := [] |}.

(** ** The user-facing API *)

(** [attach]: the cached size becomes the size of the terminal. *)
Definition attach (size : TermSize) (c : controller) : controller :=
  set_termSize size c.

Definition addAutocompleteHandler (h : handler Value) (c : controller)
    : controller :=
  set_handlers (_autocompleteHandlers c ++ [h]) c.

(** [splice(idx, 1)] at the first entry whose function is [fn]. *)
Fixpoint removeFirst (id : nat) (l : list (handler Value))
    : list (handler Value) :=
  match l with
  | [] => []
  | h :: rest => if Nat.eqb (fn_id h) id then rest else h :: removeFirst id rest
  end.

Definition removeAutocompleteHandler (id : nat) (c : controller)
    : controller :=
  set_handlers (removeFirst id (_autocompleteHandlers c)) c.

Definition read (prompt_ continuation : string) (c : controller)
    : controller :=
  let c1 := write prompt_ c in
  let c2 :=
    set_activePrompt
      (Some {| prompt := prompt_; continuationPrompt := continuation |}) c1 in
  set_active true (set_cursor 0 (set_input "" c2)).

Definition readChar (prompt_ : string) (c : controller) : controller :=
  set_activeCharPrompt
    (Some {| charPrompt := prompt_; reactions := [] |}) (write prompt_ c).

(** [promise.then(r)] on the promise of the pending [readChar]. *)
Definition andThen (r : reaction) (c : controller) : controller :=
  match _activeCharPrompt c with
  | None => c
  | Some p =>
      set_activeCharPrompt
        (Some {| charPrompt := charPrompt p;
                 reactions := reactions p ++ [r] |}) c
  end.

Definition isSome {A : Type} (o : option A) : bool :=
  match o with Some _ => true | None => false end.

Definition abortRead (reason : string) (c : controller) : controller :=
  let c1 :=
    if isSome (_activePrompt c) || isSome (_activeCharPrompt c)
    then write CRLF c else c in
  let c2 :=
    if isSome (_activePrompt c1)
    then set_activePrompt None (settle (LineRejected reason) c1) else c1 in
  let c3 :=
    if isSome (_activeCharPrompt c2)
    then set_activeCharPrompt None (settle (CharRejected reason) c2) else c2 in
  set_active false c3.

Definition print (message : string) (c : controller) : controller :=
  let normInput := collapseBreaks (str1 LF) message false in
  write (replaceLF CRLF normInput) c.

Definition println (message : string) (c : controller) : controller :=
  print (message ++ str1 LF)%string c.

(** The loop over the columns of a row, [k] columns to go: [items] are the
    items from [i] on, [None] is the RangeError of a negative [repeat].
    Once the items are used up the remaining turns do nothing. *)
Fixpoint buildRow (itemWidth : Z) (k : nat) (items : list string)
    (rowStr : string) : option (string * list string) :=
  match k, items with
  | O, _ => Some (rowStr, items)
  | S _, [] => Some (rowStr, [])
  | S k', item :: rest =>
      if itemWidth - len item <? 0 then None
      else
        buildRow itemWidth k' rest
          (rowStr ++ item ++ JS.repeat " " (itemWidth - len item))%string
  end.

(** The loop over the rows, [n] rows to go. *)
Fixpoint printRows (n : nat) (itemWidth : Z) (wideCols : nat)
    (items : list string) (c : controller) : run controller :=
  match n with
  | O => Done c
  | S n' =>
      match buildRow itemWidth wideCols items "" with
      | None => Raise "RangeError: Invalid count value" c
      | Some (rowStr, rest) =>
          printRows n' itemWidth wideCols rest (println rowStr c)
      end
  end.

(** [printWide]: the call [println("")] for no items names a function
    that does not exist; a row count of [Infinity] never ends the loop. *)
Definition printWide (items : list string) (padding : Z) (c : controller)
    : run controller :=
  match items with
  | [] => Raise "ReferenceError: println is not defined" c
  | _ =>
      let itemWidth := itemWidthOf items padding in
      let wideCols := wideColsOf (cols (_termSize c)) itemWidth in
      match wideRowsOf (Z.of_nat (List.length items)) wideCols with
      | None => Hang
      | Some wideRows =>
          printRows (Z.to_nat wideRows) itemWidth
            (match wideCols with Some w => Z.to_nat w | None => O end)
            items c
      end
  end.

(** ** The internal API *)

Definition applyPrompts (input : string) (c : controller) : string :=
  let prompt_ :=
    match _activePrompt c with Some p => prompt p | None => "" end in
  let continuation :=
    match _activePrompt c with
    | Some p => continuationPrompt p
    | None => ""
    end in
  (prompt_ ++ replaceLF (String LF continuation) input)%string.

Definition applyPromptOffset (input : string) (offset : Z) (c : controller)
    : Z :=
  len (applyPrompts (substr2 input 0 offset) c).

Definition clearInput (c : controller) : controller :=
  let currentPrompt := applyPrompts (_input c) c in
  let allRows := countLines currentPrompt (cols (_termSize c)) in
  let promptCursor := applyPromptOffset (_input c) (_cursor c) c in
  let p := offsetToColRow currentPrompt promptCursor (cols (_termSize c)) in
  let moveRows := allRows - row p - 1 in
  let c1 := writeTimes 0 moveRows (CSI "E") c in
  let c2 := write (String CR (CSI "K")) c1 in
  writeTimes 1 allRows (CSI "F" ++ CSI "K")%string c2.

Definition setInput (newInput : string) (clear : bool) (c : controller)
    : controller :=
  let c1 := if clear then clearInput c else c in
  let newPrompt := applyPrompts newInput c1 in
  let c2 := print newPrompt c1 in
  let c3 :=
    if _cursor c2 >? len newInput then set_cursor (len newInput) c2 else c2 in
  let newCursor := applyPromptOffset newInput (_cursor c3) c3 in
  let newLines := countLines newPrompt (cols (_termSize c3)) in
  let p := offsetToColRow newPrompt newCursor (cols (_termSize c3)) in
  let moveUpRows := newLines - row p - 1 in
  let c4 := write (str1 CR) c3 in
  let c5 := writeTimes 0 moveUpRows (CSI "F") c4 in
  let c6 := writeTimes 0 (col p) (CSI "C") c5 in
  set_input newInput c6.

Definition setCursor (newCursor : Z) (c : controller) : controller :=
  let newCursor := if newCursor <? 0 then 0 else newCursor in
  let newCursor :=
    if newCursor >? len (_input c) then len (_input c) else newCursor in
  let inputWithPrompt := applyPrompts (_input c) c in
  let prevPromptOffset := applyPromptOffset (_input c) (_cursor c) c in
  let prev :=
    offsetToColRow inputWithPrompt prevPromptOffset (cols (_termSize c)) in
  let newPromptOffset := applyPromptOffset (_input c) newCursor c in
  let next :=
    offsetToColRow inputWithPrompt newPromptOffset (cols (_termSize c)) in
  let c1 :=
    if row next >? row prev
    then writeTimes (row prev) (row next) (CSI "B") c
    else writeTimes (row next) (row prev) (CSI "A") c in
  let c2 :=
    if col next >? col prev
    then writeTimes (col prev) (col next) (CSI "C") c1
    else writeTimes (col next) (col prev) (CSI "D") c1 in
  set_cursor newCursor c2.

Definition handleCursorMove (dir : Z) (c : controller) : controller :=
  if dir >? 0 then
    let num := Z.min dir (len (_input c) - _cursor c) in
    setCursor (_cursor c + num) c
  else if dir <? 0 then
    let num := Z.max dir (- _cursor c) in
    setCursor (_cursor c + num) c
  else c.

Definition handleCursorErase (backspace : bool) (c : controller)
    : controller :=
  let cursor0 := _cursor c in
  let input0 := _input c in
  if backspace then
    if cursor0 <=? 0 then c
    else
      let newInput :=
        (substr2 input0 0 (cursor0 - 1) ++ substr input0 cursor0)%string in
      let c1 := clearInput c in
      let c2 := set_cursor (_cursor c1 - 1) c1 in
      setInput newInput false c2
  else
    let newInput :=
      (substr2 input0 0 cursor0 ++ substr input0 (cursor0 + 1))%string in
    setInput newInput true c.

Definition handleCursorInsert (data : string) (c : controller)
    : controller :=
  let cursor0 := _cursor c in
  let input0 := _input c in
  let newInput :=
    (substr2 input0 0 cursor0 ++ data ++ substr input0 cursor0)%string in
  let c1 := set_cursor (_cursor c + len data) c in
  setInput newInput true c1.

Definition handleReadComplete (c : controller) : controller :=
  let c1 := set_history (HistoryController.push (_input c) (history c)) c in
  let c2 :=
    if isSome (_activePrompt c1)
    then set_activePrompt None (settle (LineResolved (_input c1)) c1)
    else c1 in
  set_active false (write CRLF c2).

Definition handleTermResize (data : TermSize) (c : controller)
    : controller :=
  let c1 := clearInput c in
  let c2 := set_termSize {| cols := cols data; rows := rows data |} c1 in
  setInput (_input c2) false c2.

(** The closure [resume] of [printAndRestartPrompt]. *)
Definition resume (cursor : Z) (c : controller) : controller :=
  let c1 := set_cursor cursor c in
  setInput (_input c1) true c1.

(** The two callbacks that [handleData] passes to
    [printAndRestartPrompt]. *)
Inductive callback : Type :=
| PrintCandidates (candidates : list string)
| AskBeforePrinting (candidates : list string).

Definition displayAllPrompt (candidates : list string) : string :=
  ("Display all " ++ decimal (Z.of_nat (List.length candidates))
     ++ " possibilities? (y or n)")%string.

(** [printAndRestartPrompt]: the first callback returns nothing and the
    prompt is resumed at once; the second one returns the promise of a
    [readChar], and [resume] is chained on it. *)
Definition printAndRestartPrompt (cb : callback) (c : controller)
    : run controller :=
  let cursor := _cursor c in
  let c1 := setCursor (len (_input c)) c in
  let c2 := write CRLF c1 in
  match cb with
  | PrintCandidates candidates =>
      c3 <- printWide candidates 2 c2 ;;
      Done (resume cursor c3)
  | AskBeforePrinting candidates =>
      let c3 := readChar (displayAllPrompt candidates) c2 in
      let c4 := andThen (DisplayAll candidates) c3 in
      Done (andThen (Resume cursor) c4)
  end.

(** A string is truthy when it is not empty. *)
Definition truthy (s : string) : bool := negb (String.eqb s "").

(** The case of the tab key when providers are registered. *)
Definition handleTab (c : controller) : run controller :=
  let inputFragment := substr2 (_input c) 0 (_cursor c) in
  let hasTailingSpace := hasTailingWhitespace inputFragment in
  let candidates :=
    sortStrings
      (fst (collectAutocompleteCandidates parse (_autocompleteHandlers c)
              inputFragment)) in
  match candidates with
  | [] =>
      if negb hasTailingSpace then Done (handleCursorInsert " " c)
      else Done c
  | [candidate] =>
      let lastToken := getLastToken parse inputFragment in
      Done (handleCursorInsert
              (substr candidate (tokenLength lastToken) ++ " ")%string c)
  | _ =>
      if Z.of_nat (List.length candidates) <=? maxAutocompleteEntries c then
        match getSharedFragment inputFragment candidates with
        | TypeError => Raise "TypeError" c
        | Null => printAndRestartPrompt (PrintCandidates candidates) c
        | Fragment sameFragment =>
            let c1 :=
              if truthy sameFragment then
                let lastToken := getLastToken parse inputFragment in
                handleCursorInsert
                  (substr sameFragment (tokenLength lastToken)) c
              else c in
            printAndRestartPrompt (PrintCandidates candidates) c1
        end
      else printAndRestartPrompt (AskBeforePrinting candidates) c
  end.

(** The [switch] on [data.substr(1)] after an escape character. *)
Definition handleEscape (sequence : string) (c : controller) : controller :=
  if String.eqb sequence "[A" then
    let (value, h) := HistoryController.getPrevious (history c) in
    let c1 := set_history h c in
    match value with
    | Some v =>
        if truthy v then setCursor (len v) (setInput v true c1) else c1
    | None => c1
    end
  else if String.eqb sequence "[B" then
    let (value, h) := HistoryController.getNext (history c) in
    let c1 := set_history h c in
    let v :=
      match value with
      | Some v => if truthy v then v else ""
      | None => ""
      end in
    setCursor (len v) (setInput v true c1)
  else if String.eqb sequence "[D" then handleCursorMove (-1) c
  else if String.eqb sequence "[C" then handleCursorMove 1 c
  else if String.eqb sequence "[3~" then handleCursorErase false c
  else if String.eqb sequence "[F" then setCursor (len (_input c)) c
  else if String.eqb sequence "[H" then setCursor 0 c
  else if String.eqb sequence "b" then
    setCursor (closestLeftBoundary (_input c) (_cursor c)) c
  else if String.eqb sequence "f" then
    setCursor (closestRightBoundary (_input c) (_cursor c)) c
  else if String.eqb sequence (str1 DEL) then
    let ofs := closestLeftBoundary (_input c) (_cursor c) in
    let c1 :=
      setInput
        (substr2 (_input c) 0 ofs ++ substr (_input c) (_cursor c))%string
        true c in
    setCursor ofs c1
  else c.

(** The [switch] on [data] for a control character. *)
Definition handleControl (data : string) (c : controller) : run controller :=
  if String.eqb data (str1 CR) then
    if this_isIncompleteInput c (_input c)
    then Done (handleCursorInsert (str1 LF) c)
    else Done (handleReadComplete c)
  else if String.eqb data (str1 DEL) then Done (handleCursorErase true c)
  else if String.eqb data (str1 TAB) then
    match _autocompleteHandlers c with
    | [] => Done (handleCursorInsert "    " c)
    | _ => handleTab c
    end
  else if String.eqb data (str1 ETX) then
    let c1 := setCursor (len (_input c)) c in
    let c2 :=
      write ("^C" ++ CRLF
             ++ match _activePrompt c1 with
                | Some p => prompt p
                | None => ""
                end)%string c1 in
    let c3 := set_cursor 0 (set_input "" c2) in
    Done (set_history (HistoryController.rewind (history c3)) c3)
  else Done c.

Definition handleData (data : string) (c : controller) : run controller :=
  if negb (_active c) then Done c
  else
    match charCodeAt0 data with
    | Some ord =>
        if ord =? 27 then Done (handleEscape (substr data 1) c)
        else if (ord <? 32) || (ord =? 127) then handleControl data c
        else Done (handleCursorInsert data c)
    | None => Done (handleCursorInsert data c)
    end.

(** The reactions chained on the promise of a [readChar], run once it is
    resolved with [yn].  A reaction that throws rejects its promise: the
    reactions chained after it do not run. *)
Fixpoint react (yn : string) (rs : list reaction) (c : controller)
    : run controller :=
  match rs with
  | [] => Done c
  | DisplayAll candidates :: rest =>
      if String.eqb yn "y" || String.eqb yn "Y" then
        match printWide candidates 2 c with
        | Done c1 => react yn rest c1
        | Raise _ c1 => Done c1
        | Hang => Hang
        end
      else react yn rest c
  | Resume cursor :: rest => react yn rest (resume cursor c)
  end.

(** [forEach(c => this.handleData(c))] *)
Fixpoint forEachData (l : list string) (c : controller) : run controller :=
  match l with
  | [] => Done c
  | d :: rest => c1 <- handleData d c ;; forEachData rest c1
  end.

Definition handleTermData (data : string) (c : controller)
    : run controller :=
  if negb (_active c) then Done c
  else
    match _activeCharPrompt c with
    | Some p =>
        let c1 := settle (CharResolved data) c in
        let c2 := set_activeCharPrompt None c1 in
        let c3 := write CRLF c2 in
        react data (reactions p) c3
    | None =>
        if (len data >? 3)
           && negb (match charCodeAt0 data with
                    | Some ord => ord =? 27
                    | None => false
                    end)
        then forEachData (chars (collapseBreaks (str1 CR) data false)) c
        else handleData data c
    end.

(** The events of a list, handled one after the other. *)
Fixpoint feed (events : list string) (c : controller) : run controller :=
  match events with
  | [] => Done c
  | data :: rest => c1 <- handleTermData data c ;; feed rest c1
  end.

(** ** The states of a session *)

(** The invariant of the data model: the cursor is an offset into the
    buffer. *)
Definition cursorInRange (c : controller) : Prop :=
  0 <= _cursor c <= len (_input c).

(** The cursors that pending [resume] closures hold are not negative. *)
Definition resumable (c : controller) : Prop :=
  match _activeCharPrompt c with
  | None => True
  | Some p =>
      Forall (fun r => match r with
                       | Resume cursor => 0 <= cursor
                       | DisplayAll _ => True
                       end) (reactions p)
  end.

(** What every method keeps. *)
Definition sessionInvariant (c : controller) : Prop :=
  cursorInRange c /\ resumable c.

(** The invariant of the state that a call leaves, if it leaves one. *)
Definition runInvariant (r : run controller) : Prop :=
  match r with
  | Done c => sessionInvariant c
  | Raise _ c => sessionInvariant c
  | Hang => True
  end.

(** One call of a method of the controller, from outside or from the
    terminal; a call that throws leaves the state of the throw. *)
Inductive step : controller -> controller -> Prop :=
| step_attach size c : step c (attach size c)
| step_addAutocompleteHandler h c : step c (addAutocompleteHandler h c)
| step_removeAutocompleteHandler id c :
    step c (removeAutocompleteHandler id c)
| step_read prompt_ continuation c : step c (read prompt_ continuation c)
| step_readChar prompt_ c : step c (readChar prompt_ c)
| step_abortRead reason c : step c (abortRead reason c)
| step_print message c : step c (print message c)
| step_println message c : step c (println message c)
| step_printWide items padding c c' :
    printWide items padding c = Done c' -> step c c'
| step_printWide_throws items padding c c' e :
    printWide items padding c = Raise e c' -> step c c'
| step_clearInput c : step c (clearInput c)
| step_setInput newInput clear c : step c (setInput newInput clear c)
| step_setCursor newCursor c : step c (setCursor newCursor c)
| step_handleCursorMove dir c : step c (handleCursorMove dir c)
| step_handleCursorErase backspace c :
    step c (handleCursorErase backspace c)
| step_handleCursorInsert data c : step c (handleCursorInsert data c)
| step_handleReadComplete c : step c (handleReadComplete c)
| step_handleTermResize data c : step c (handleTermResize data c)
| step_handleData data c c' : handleData data c = Done c' -> step c c'
| step_handleData_throws data c c' e :
    handleData data c = Raise e c' -> step c c'
| step_handleTermData data c c' :
    handleTermData data c = Done c' -> step c c'
| step_handleTermData_throws data c c' e :
    handleTermData data c = Raise e c' -> step c c'.

(** The states that a session goes through, from its construction on. *)
Inductive reachable : controller -> Prop :=
| reachable_create size o : reachable (create size o)
| reachable_step c c' : reachable c -> step c c' -> reachable c'.

End Controller.

(** A stand-in for the tokenizer, for the examples: the text as one token.
    The examples do not depend on it. *)
Definition oneToken (input : string) : list token := [TStr input].

(** The options that leave every default in place. *)
Definition defaultOptions : options :=
  {| historySize := None;
     opt_maxAutocompleteEntries := None;
     opt_isIncompleteInput := None |}.

Unset Implicit Arguments.

(* ===================================================================== *)
(** * Facts about strings *)
(* ===================================================================== *)

Lemma length_append (a b : string) :
  String.length (a ++ b)%string = (String.length a + String.length b)%nat.
Proof.
  induction a as [|x a IH]; simpl; [reflexivity | now rewrite IH].
Qed.

Lemma len_append (a b : string) : len (a ++ b)%string = len a + len b.
Proof. unfold len. rewrite length_append. lia. Qed.

Lemma len_nonneg (s : string) : 0 <= len s.
Proof. unfold len. lia. Qed.

Lemma charAt_append (a b : string) (i : Z) :
  0 <= i < len a -> charAt (a ++ b)%string i = charAt a i.
Proof.
  unfold charAt, len. intros Hi.
  destruct (i <? 0); [reflexivity|].
  rewrite <- append_correct1 by lia. reflexivity.
Qed.

(* ===================================================================== *)
(** * Text geometry: rows only grow *)
(* ===================================================================== *)

Section Geometry.

Variable maxCols : Z.

Lemma advance_row (chr : string) (p : ColRow) :
  row p <= row (advance maxCols chr p) <= row p + 1.
Proof.
  unfold advance.
  destruct (String.eqb chr (str1 LF)); simpl; [lia|].
  destruct (col p + 1 >? maxCols); simpl; lia.
Qed.

Lemma loop_row_mono (input : string) (n : nat) :
  forall i p, row p <= row (offsetToColRow_loop input maxCols n i p).
Proof.
  induction n as [|n IH]; intros i p; simpl; [lia|].
  pose proof (advance_row (charAt input i) p) as Ha.
  specialize (IH (i + 1) (advance maxCols (charAt input i) p)). lia.
Qed.

Lemma loop_add (input : string) (n m : nat) :
  forall i p,
    offsetToColRow_loop input maxCols (n + m) i p
    = offsetToColRow_loop input maxCols m (i + Z.of_nat n)
        (offsetToColRow_loop input maxCols n i p).
Proof.
  induction n as [|n IH]; intros i p.
  - simpl. now rewrite Z.add_0_r.
  - cbn [Nat.add offsetToColRow_loop]. rewrite IH.
    f_equal. lia.
Qed.

(** The loop reads the characters from [i] to [i + n - 1] only. *)
Lemma loop_ext (a b : string) (n : nat) :
  forall i p,
    (forall j, i <= j < i + Z.of_nat n -> charAt a j = charAt b j) ->
    offsetToColRow_loop a maxCols n i p = offsetToColRow_loop b maxCols n i p.
Proof.
  induction n as [|n IH]; intros i p Hj; simpl; [reflexivity|].
  rewrite (Hj i) by lia. apply IH. intros j Hr. apply Hj. lia.
Qed.

Lemma row_nonneg (input : string) (offset : Z) :
  0 <= row (offsetToColRow input offset maxCols).
Proof.
  unfold offsetToColRow.
  apply (loop_row_mono input (Z.to_nat offset) 0 {| row := 0; col := 0 |}).
Qed.

Lemma row_monotone (input : string) (o1 o2 : Z) :
  o1 <= o2 ->
  row (offsetToColRow input o1 maxCols) <= row (offsetToColRow input o2 maxCols).
Proof.
  intros Hle. unfold offsetToColRow.
  replace (Z.to_nat o2) with (Z.to_nat o1 + (Z.to_nat o2 - Z.to_nat o1))%nat
    by lia.
  rewrite loop_add. apply loop_row_mono.
Qed.

Lemma offsetToColRow_append (text ext : string) (offset : Z) :
  offset <= len text ->
  offsetToColRow (text ++ ext)%string offset maxCols
  = offsetToColRow text offset maxCols.
Proof.
  intros Hle. unfold offsetToColRow. apply loop_ext.
  intros j Hj. apply charAt_append. lia.
Qed.

Lemma countLines_append (text ext : string) :
  countLines text maxCols <= countLines (text ++ ext)%string maxCols.
Proof.
  unfold countLines.
  rewrite <- (offsetToColRow_append text ext (len text)) by lia.
  pose proof (row_monotone (text ++ ext)%string (len text)
                (len (text ++ ext)%string)) as Hm.
  rewrite len_append in *. pose proof (len_nonneg ext). lia.
Qed.

End Geometry.

(** C8: a text has at least one line; the row of an offset does not decrease
    when the offset grows; and a text that is extended has at least as many
    lines as before.  This holds for every width, the widths of at least one
    column included. *)
Theorem countLines_and_rows_monotone (text : string) (maxCols : Z) :
  countLines text maxCols >= 1
  /\ (forall o1 o2 : Z,
        o1 < o2 ->
        row (offsetToColRow text o2 maxCols)
        >= row (offsetToColRow text o1 maxCols))
  /\ (forall ext : string,
        countLines (text ++ ext)%string maxCols >= countLines text maxCols).
Proof.
  split; [|split].
  - unfold countLines. pose proof (row_nonneg maxCols text (len text)). lia.
  - intros o1 o2 Hlt.
    pose proof (row_monotone maxCols text o1 o2). lia.
  - intros ext. pose proof (countLines_append maxCols text ext). lia.
Qed.

(* ===================================================================== *)
(** * Word boundaries *)
(* ===================================================================== *)

Section Boundaries.

Variable leftSide : bool.

(** Every boundary found from the index [i] on is at [i] or after it. *)
Lemma wordBoundaries_from_lower (s : string) :
  forall i inWord,
    Forall (fun b => i <= b) (wordBoundaries_from leftSide s i inWord).
Proof.
  induction s as [|c s IH]; intros i inWord; simpl.
  - destruct (inWord && negb leftSide); repeat constructor. lia.
  - assert (Hrest : forall w,
               Forall (fun b => i <= b)
                 (wordBoundaries_from leftSide s (i + 1) w)).
    { intros w. eapply Forall_impl; [|apply IH]. simpl. intros; lia. }
    destruct (isWordChar c).
    + destruct (negb inWord && leftSide); simpl; auto.
      constructor; [lia | auto].
    + destruct (inWord && negb leftSide); simpl; auto.
      constructor; [lia | auto].
Qed.

(** Every boundary is at most the index of the end of the text. *)
Lemma wordBoundaries_from_upper (s : string) :
  forall i inWord,
    Forall (fun b => b <= i + len s) (wordBoundaries_from leftSide s i inWord).
Proof.
  induction s as [|c s IH]; intros i inWord; simpl.
  - destruct (inWord && negb leftSide); repeat constructor.
    unfold len; simpl; lia.
  - assert (Hlen : len (String c s) = len s + 1)
      by (unfold len; simpl String.length; lia).
    assert (Hrest : forall w,
               Forall (fun b => b <= i + len (String c s))
                 (wordBoundaries_from leftSide s (i + 1) w)).
    { intros w. eapply Forall_impl; [|apply IH]. simpl. intros; lia. }
    pose proof (len_nonneg s).
    destruct (isWordChar c).
    + destruct (negb inWord && leftSide); simpl; auto.
      constructor; [lia | auto].
    + destruct (inWord && negb leftSide); simpl; auto.
      constructor; [lia | auto].
Qed.

(** The boundaries come in increasing order. *)
Lemma wordBoundaries_from_sorted (s : string) :
  forall i inWord,
    StronglySorted Z.lt (wordBoundaries_from leftSide s i inWord).
Proof.
  induction s as [|c s IH]; intros i inWord; simpl.
  - destruct (inWord && negb leftSide); repeat constructor.
  - assert (Hrest : forall w,
               Forall (Z.lt i) (wordBoundaries_from leftSide s (i + 1) w)).
    { intros w. eapply Forall_impl; [|apply wordBoundaries_from_lower].
      simpl. intros; lia. }
    destruct (isWordChar c).
    + destruct (negb inWord && leftSide); simpl; auto.
      constructor; auto.
    + destruct (inWord && negb leftSide); simpl; auto.
      constructor; auto.
Qed.

End Boundaries.

(** [find] on a sorted list gives the least element that passes the test. *)
Lemma find_sorted (R : Z -> Z -> Prop) (p : Z -> bool) (l : list Z) (f : Z) :
  StronglySorted R l ->
  List.find p l = Some f ->
  In f l /\ p f = true /\ forall b, In b l -> p b = true -> b = f \/ R f b.
Proof.
  induction 1 as [|a l Hs IH Hall]; simpl; [discriminate|].
  destruct (p a) eqn:Hpa.
  - intros [= ->]. repeat split; auto.
    intros b [-> | Hin] _; [now left | right].
    rewrite Forall_forall in Hall. now apply Hall.
  - intros Hf. destruct (IH Hf) as (Hin & Hpf & Hmin).
    repeat split; auto.
    intros b [-> | Hb] Hpb; [congruence | now apply Hmin].
Qed.

Lemma sorted_snoc (R : Z -> Z -> Prop) (l : list Z) (a : Z) :
  StronglySorted R l -> Forall (fun x => R x a) l ->
  StronglySorted R (l ++ [a]).
Proof.
  induction 1 as [|x l Hs IH Hall]; intros Hlast; simpl.
  - repeat constructor.
  - inversion Hlast as [|? ? Hxa Hrest]; subst.
    constructor; [now apply IH|].
    apply Forall_app. split; [assumption | now repeat constructor].
Qed.

Lemma sorted_rev (l : list Z) :
  StronglySorted Z.lt l -> StronglySorted (fun a b => b < a) (List.rev l).
Proof.
  induction 1 as [|a l Hs IH Hall]; simpl; [constructor|].
  apply sorted_snoc; [assumption|].
  rewrite Forall_forall in *. intros x Hx. apply Hall. now apply in_rev.
Qed.

Lemma closestLeftBoundary_found (input : string) (offset : Z) :
  (exists b, In b (wordBoundaries input true) /\ b < offset) ->
  In (closestLeftBoundary input offset) (wordBoundaries input true)
  /\ closestLeftBoundary input offset < offset
  /\ forall b, In b (wordBoundaries input true) -> b < offset ->
               b <= closestLeftBoundary input offset.
Proof.
  intros (b0 & Hin0 & Hlt0). unfold closestLeftBoundary.
  destruct (List.find _ _) as [f|] eqn:Hfind.
  - apply find_sorted with (R := fun a b => b < a) in Hfind;
      [|apply sorted_rev, wordBoundaries_from_sorted].
    destruct Hfind as (Hin & Hp & Hmin).
    apply in_rev in Hin. apply Z.ltb_lt in Hp.
    repeat split; auto.
    intros b Hb Hlt.
    destruct (Hmin b) as [-> | Hlt']; [now apply in_rev in Hb | | lia | lia].
    now apply Z.ltb_lt.
  - exfalso. apply in_rev in Hin0.
    apply (find_none _ _ Hfind b0) in Hin0. apply Z.ltb_ge in Hin0. lia.
Qed.

Lemma closestLeftBoundary_none (input : string) (offset : Z) :
  (forall b, In b (wordBoundaries input true) -> offset <= b) ->
  closestLeftBoundary input offset = 0.
Proof.
  intros Hnone. unfold closestLeftBoundary.
  destruct (List.find _ _) as [f|] eqn:Hfind; [|reflexivity].
  apply find_some in Hfind as [Hin Hp].
  apply in_rev in Hin. apply Hnone in Hin. apply Z.ltb_lt in Hp. lia.
Qed.

Lemma closestRightBoundary_found (input : string) (offset : Z) :
  (exists b, In b (wordBoundaries input false) /\ offset < b) ->
  In (closestRightBoundary input offset) (wordBoundaries input false)
  /\ offset < closestRightBoundary input offset
  /\ forall b, In b (wordBoundaries input false) -> offset < b ->
               closestRightBoundary input offset <= b.
Proof.
  intros (b0 & Hin0 & Hlt0). unfold closestRightBoundary.
  destruct (List.find _ _) as [f|] eqn:Hfind.
  - apply find_sorted with (R := Z.lt) in Hfind;
      [|apply wordBoundaries_from_sorted].
    destruct Hfind as (Hin & Hp & Hmin).
    apply Z.gtb_lt in Hp.
    repeat split; auto.
    intros b Hb Hlt.
    destruct (Hmin b) as [-> | Hlt']; [assumption | | lia | lia].
    now apply Z.gtb_lt.
  - exfalso.
    apply (find_none _ _ Hfind b0) in Hin0.
    rewrite Z.gtb_ltb in Hin0. apply Z.ltb_ge in Hin0. lia.
Qed.

Lemma closestRightBoundary_none (input : string) (offset : Z) :
  (forall b, In b (wordBoundaries input false) -> b <= offset) ->
  closestRightBoundary input offset = len input.
Proof.
  intros Hnone. unfold closestRightBoundary.
  destruct (List.find _ _) as [f|] eqn:Hfind; [|reflexivity].
  apply find_some in Hfind as [Hin Hp].
  apply Hnone in Hin. apply Z.gtb_lt in Hp. lia.
Qed.

(** C4, as the code has it: the closest left boundary is the greatest start
    of a word below the offset, and 0 when no word starts below the offset;
    the closest right boundary is the least end of a word above the offset,
    and the length of the text when no word ends above the offset. *)
Theorem closest_boundaries (input : string) (offset : Z) :
  ((exists b, In b (wordBoundaries input true) /\ b < offset) ->
     In (closestLeftBoundary input offset) (wordBoundaries input true)
     /\ closestLeftBoundary input offset < offset
     /\ forall b, In b (wordBoundaries input true) -> b < offset ->
                  b <= closestLeftBoundary input offset)
  /\ ((forall b, In b (wordBoundaries input true) -> offset <= b) ->
      closestLeftBoundary input offset = 0)
  /\ ((exists b, In b (wordBoundaries input false) /\ offset < b) ->
      In (closestRightBoundary input offset) (wordBoundaries input false)
      /\ offset < closestRightBoundary input offset
      /\ forall b, In b (wordBoundaries input false) -> offset < b ->
                   closestRightBoundary input offset <= b)
  /\ ((forall b, In b (wordBoundaries input false) -> b <= offset) ->
      closestRightBoundary input offset = len input).
Proof.
  split; [apply closestLeftBoundary_found|].
  split; [apply closestLeftBoundary_none|].
  split; [apply closestRightBoundary_found | apply closestRightBoundary_none].
Qed.

(** C4, a concrete case of each part: in ["ab  cd  "] words start at 0 and 4
    and end at 2 and 6. *)
Lemma closest_boundaries_witness :
  wordBoundaries "ab  cd  " true = [0; 4]
  /\ wordBoundaries "ab  cd  " false = [2; 6]
  /\ closestLeftBoundary "ab  cd  " 5 < 5
  /\ closestLeftBoundary "ab  cd  " 0 = 0
  /\ 3 < closestRightBoundary "ab  cd  " 3
  /\ closestRightBoundary "ab  cd  " 7 = len "ab  cd  ".
Proof.
  split; [reflexivity|]. split; [reflexivity|].
  destruct (closest_boundaries "ab  cd  " 5) as (Hleft & _).
  destruct (closest_boundaries "ab  cd  " 0) as (_ & Hnoleft & _).
  destruct (closest_boundaries "ab  cd  " 3) as (_ & _ & Hright & _).
  destruct (closest_boundaries "ab  cd  " 7) as (_ & _ & _ & Hnoright).
  split; [|split; [|split]].
  - apply Hleft. exists 4. split; [simpl; auto | lia].
  - apply Hnoleft. intros b [<- | [<- | []]]; lia.
  - apply Hright. exists 6. split; [simpl; auto | lia].
  - apply Hnoright. intros b [<- | [<- | []]]; lia.
Defined.

(** C4 as stated fails: in ["  ab  "] the only word starts at 2 and ends at
    4; with no boundary below 1 the left result is 0, not 1, and with no
    boundary above 5 the right result is the length 6, not 5. *)
Lemma closest_boundary_is_not_the_offset :
  (forall b, In b (wordBoundaries "  ab  " true) -> ~ b < 1)
  /\ closestLeftBoundary "  ab  " 1 = 0
  /\ closestLeftBoundary "  ab  " 1 <> 1
  /\ (forall b, In b (wordBoundaries "  ab  " false) -> ~ b > 5)
  /\ closestRightBoundary "  ab  " 5 = 6
  /\ closestRightBoundary "  ab  " 5 <> 5.
Proof.
  repeat split; try reflexivity; try discriminate.
  - intros b [<- | []]. lia.
  - intros b [<- | []]. lia.
Qed.

(* ===================================================================== *)
(** * The history ring *)
(* ===================================================================== *)

Lemma at_index_last {A : Type} (l : list A) (x : A) :
  at_index (l ++ [x]) (Z.of_nat (List.length (l ++ [x])) - 1) = Some x.
Proof.
  unfold at_index. rewrite length_app. simpl List.length.
  replace (Z.of_nat (List.length l + 1) - 1 <? 0) with false
    by (symmetry; apply Z.ltb_ge; lia).
  replace (Z.to_nat (Z.of_nat (List.length l + 1) - 1)) with (List.length l)
    by lia.
  rewrite nth_error_app2 by lia. now rewrite Nat.sub_diag.
Qed.

Module HistoryFacts.
Import HistoryController.

(** A push that passes the two tests and finds room appends. *)
Lemma push_room (entry : string) (h : t) :
  pushable (lastEntry h) [entry] = true ->
  Z.of_nat (List.length (entries h)) < size h ->
  push entry h
  = {| size := size h; entries := entries h ++ [entry];
       cursor := Z.of_nat (List.length (entries h ++ [entry])) |}.
Proof.
  unfold pushable, push. intros Hp Hroom.
  destruct (String.eqb (trim entry) ""); [discriminate|].
  destruct (looseEq entry _); [discriminate|].
  replace (Z.of_nat (List.length (entries h ++ [entry])) >? size h)
    with false; [reflexivity|].
  symmetry. rewrite Z.gtb_ltb. apply Z.ltb_ge.
  rewrite length_app. simpl. lia.
Qed.

(** A push into a full ring changes no entry: the entry that was just
    pushed is the one that is removed. *)
Lemma push_full (entry : string) (h : t) :
  Z.of_nat (List.length (entries h)) = size h ->
  entries (push entry h) = entries h.
Proof.
  unfold push. intros Hfull.
  destruct (String.eqb (trim entry) ""); [reflexivity|].
  destruct (looseEq entry _); [reflexivity|].
  replace (Z.of_nat (List.length (entries h ++ [entry])) >? size h)
    with true.
  - simpl. apply removelast_last.
  - symmetry. rewrite Z.gtb_ltb. apply Z.ltb_lt.
    rewrite length_app. simpl. lia.
Qed.

Lemma pushAll_room (l : list string) :
  forall h,
    pushable (lastEntry h) l = true ->
    Z.of_nat (List.length (entries h) + List.length l) <= size h ->
    entries (pushAll l h) = entries h ++ l /\ size (pushAll l h) = size h.
Proof.
  induction l as [|entry l IH]; intros h Hp Hroom.
  - simpl. now rewrite app_nil_r.
  - simpl in Hp. apply andb_prop in Hp as [Hentry Hrest].
    unfold pushAll. simpl List.fold_left. fold (pushAll l (push entry h)).
    simpl List.length in Hroom.
    rewrite push_room; [| simpl; now rewrite Hentry | lia].
    match goal with |- context [pushAll l ?h1] => destruct (IH h1) as [He Hs] end.
    + unfold lastEntry. simpl entries. now rewrite at_index_last.
    + simpl. rewrite length_app. simpl. lia.
    + rewrite He, Hs. simpl. now rewrite <- app_assoc.
Qed.

End HistoryFacts.

(** C1, what the code does instead: when [size] entries that are not blank,
    each one different from the one before it, are pushed on an empty ring
    of capacity [size], and one more entry is pushed, the ring still holds
    the first [size] entries: the last one pushed is dropped, not the
    oldest. *)
Theorem history_push_drops_newest (l : list string) (entry : string) :
  HistoryController.pushable None l = true ->
  HistoryController.entries
    (HistoryController.pushAll (l ++ [entry])
       (HistoryController.create (Z.of_nat (List.length l))))
  = l.
Proof.
  intros Hp. unfold HistoryController.pushAll.
  rewrite fold_left_app. simpl.
  fold (HistoryController.pushAll l
          (HistoryController.create (Z.of_nat (List.length l)))).
  destruct (HistoryFacts.pushAll_room l
              (HistoryController.create (Z.of_nat (List.length l))))
    as [He Hs]; [exact Hp | simpl; lia |].
  rewrite HistoryFacts.push_full; [exact He|].
  rewrite He, Hs. reflexivity.
Qed.

(** C1 at capacity 2: after ["a"], ["b"], ["c"] the ring holds ["a"] and
    ["b"], where eviction of the oldest entry would leave ["b"] and ["c"]. *)
Lemma history_push_drops_newest_witness :
  HistoryController.entries
    (HistoryController.pushAll (["a"; "b"] ++ ["c"])
       (HistoryController.create (Z.of_nat (List.length ["a"; "b"]))))
  = ["a"; "b"].
Proof.
  apply (history_push_drops_newest ["a"; "b"] "c"). reflexivity.
Defined.

(* ===================================================================== *)
(** * The continuation predicate *)
(* ===================================================================== *)

Lemma odd_dangling (n : Z) : Z.odd n = true -> negb (n mod 2 =? 0) = true.
Proof.
  intros Hodd. rewrite Zmod_odd, Hodd. reflexivity.
Qed.

(** C2, as the code has it: an input that is not blank is judged incomplete
    when the number of its single quotes is odd or the number of its double
    quotes is odd, every quote counting, the ones after a backslash too. *)
Theorem isIncompleteInput_odd_quotes (input : string) :
  trim input <> "" ->
  Z.odd (countChar SQUOTE input) = true \/ Z.odd (countChar DQUOTE input) = true ->
  isIncompleteInput input = true.
Proof.
  intros Hblank Hodd. unfold isIncompleteInput.
  destruct (String.eqb_spec (trim input) ""); [contradiction|].
  unfold danglingSingleQuote, danglingDoubleQuote.
  destruct Hodd as [Hodd | Hodd]; rewrite (odd_dangling _ Hodd).
  - reflexivity.
  - now destruct (negb _).
Qed.

(** C2 on [echo \']: the quote after the backslash counts. *)
Lemma isIncompleteInput_odd_quotes_witness :
  countChar SQUOTE "echo \'" = 1 /\ isIncompleteInput "echo \'" = true.
Proof.
  split; [reflexivity|].
  apply isIncompleteInput_odd_quotes; [discriminate | left; reflexivity].
Defined.

(** C2 as stated fails both ways.  In [echo \'] the only quote is escaped,
    no operator dangles and no backslash ends the input, and the input is
    judged incomplete.  In [echo \''] one quote is not escaped, and the input
    is judged complete. *)
Lemma escaped_quotes_are_counted :
  (countUnescaped SQUOTE "echo \'" false = 0
   /\ countUnescaped DQUOTE "echo \'" false = 0
   /\ danglingOperator "echo \'" = false
   /\ tailingSlash "echo \'" = false
   /\ isIncompleteInput "echo \'" = true)
  /\ (trim "echo \''" <> ""
      /\ Z.odd (countUnescaped SQUOTE "echo \''" false) = true
      /\ isIncompleteInput "echo \''" = false).
Proof.
  repeat split; try reflexivity. discriminate.
Qed.

(* ===================================================================== *)
(** * Collecting the candidates *)
(* ===================================================================== *)

Section CompletionFacts.

Context {Value : Type}.
Variable parse : string -> list token.

Lemma invocations_app (a b : list effect) :
  invocations (a ++ b) = invocations a ++ invocations b.
Proof.
  induction a as [|[id|e] a IH]; simpl; [reflexivity | now rewrite IH | exact IH].
Qed.

Lemma reports_app (a b : list effect) :
  reports (a ++ b) = reports a ++ reports b.
Proof.
  induction a as [|[id|e] a IH]; simpl; [reflexivity | exact IH | now rewrite IH].
Qed.

(** The fold over the providers, from any accumulator. *)
Lemma reduce_providers (index : Z) (tokens : list token)
    (callbacks : list (handler Value)) :
  forall candidates effects,
    let result :=
      List.fold_left (reducer index tokens) callbacks (candidates, effects) in
    fst result
    = candidates ++ List.concat (List.map (contribution index tokens) callbacks)
    /\ invocations (snd result)
       = invocations effects ++ List.map (@fn_id Value) callbacks
    /\ reports (snd result)
       = reports effects
         ++ List.concat (List.map (failure index tokens) callbacks).
Proof.
  induction callbacks as [|h callbacks IH]; intros candidates effects; simpl.
  - now rewrite !app_nil_r.
  - unfold contribution, failure.
    destruct (fn h index tokens (args h)) as [l|e]; simpl.
    + destruct (IH (candidates ++ l) (effects ++ [Invoked (fn_id h)]))
        as (Hc & Hi & Hr).
      rewrite Hc, Hi, Hr, invocations_app, reports_app. simpl.
      rewrite <- !app_assoc, ?app_nil_r. auto.
    + destruct (IH candidates
                  (effects ++ [Invoked (fn_id h); ConsoleError e]))
        as (Hc & Hi & Hr).
      rewrite Hc, Hi, Hr, invocations_app, reports_app. simpl.
      rewrite <- ?app_assoc, ?app_nil_r. auto.
Qed.

End CompletionFacts.

(** C9: the candidates are what the providers that return contribute, in the
    order of the registry, filtered to the ones that start with the
    expression; every provider is called, in the order of the registry, the
    ones after a provider that throws too; and exactly the errors of the
    providers that throw are reported. *)
Theorem collect_isolates_failing_providers (Value : Type)
    (parse : string -> list token) (callbacks : list (handler Value))
    (input : string) :
  let tokens := parse input in
  let index := fst (completionTarget parse input) in
  let expr := tokenToString (snd (completionTarget parse input)) in
  let result := collectAutocompleteCandidates parse callbacks input in
  fst result
  = List.filter (fun txt => startsWith txt expr)
      (List.concat (List.map (contribution index tokens) callbacks))
  /\ invocations (snd result) = List.map (@fn_id Value) callbacks
  /\ reports (snd result)
     = List.concat (List.map (failure index tokens) callbacks).
Proof.
  cbv zeta. unfold collectAutocompleteCandidates.
  destruct (completionTarget parse input) as [index expr]. simpl fst. simpl snd.
  pose proof (reduce_providers index (parse input) callbacks [] []) as H.
  cbv zeta in H.
  destruct (List.fold_left _ callbacks ([], [])) as [all effects].
  simpl in *. destruct H as (-> & -> & ->). auto.
Qed.

(* ===================================================================== *)
(** * The shared fragment *)
(* ===================================================================== *)

(** A loop that runs to its end found that every candidate starts with the
    extended fragment. *)
Lemma sharedLoop_done (oldFragment fragment : string) (candidates : list string) :
  sharedLoop oldFragment fragment candidates = LoopDone ->
  forall c, In c candidates -> startsWith c fragment = true.
Proof.
  induction candidates as [|x candidates IH]; simpl; [contradiction|].
  destruct (startsWith x oldFragment); simpl; [|discriminate].
  destruct (startsWith x fragment) eqn:Hx; simpl; [|discriminate].
  intros Hdone c [<- | Hin]; auto.
Qed.

(** A loop that ends with [null] met a candidate that does not start with
    the fragment before its extension. *)
Lemma sharedLoop_null (oldFragment fragment : string) (candidates : list string) :
  sharedLoop oldFragment fragment candidates = ReturnNull ->
  exists c, In c candidates /\ startsWith c oldFragment = false.
Proof.
  induction candidates as [|x candidates IH]; simpl; [discriminate|].
  destruct (startsWith x oldFragment) eqn:Hold; simpl.
  - destruct (startsWith x fragment); simpl; [|discriminate].
    intros H. destruct (IH H) as (c & Hin & Hc). exists c. auto.
  - intros _. exists x. auto.
Qed.

Lemma len_extend (fragment c0 : string) :
  len fragment < len c0 -> len (extend fragment c0) = len fragment + 1.
Proof.
  intros Hlt. unfold extend. rewrite len_append. f_equal.
  unfold slice, len in *.
  replace (Z.of_nat (String.length fragment) <? 0) with false
    by (symmetry; apply Z.ltb_ge; lia).
  replace (Z.of_nat (String.length fragment) + 1 <? 0) with false
    by (symmetry; apply Z.ltb_ge; lia).
  rewrite !Z.min_l by lia.
  replace (Z.to_nat (Z.of_nat (String.length fragment) + 1
                     - Z.of_nat (String.length fragment))) with 1%nat by lia.
  rewrite Nat2Z.id.
  assert (Hsub : forall s k, (k < String.length s)%nat ->
                             String.length (String.substring k 1 s) = 1%nat).
  { intros s. induction s as [|x s IH]; intros k Hk; simpl in Hk; [lia|].
    destruct k as [|k]; simpl.
    - destruct s; reflexivity.
    - apply IH. lia. }
  rewrite Hsub by lia. reflexivity.
Qed.

(** The base case: the first candidate is not longer than the fragment. *)
Lemma getSharedFragment_base (fragment c0 : string) (rest : list string) :
  len fragment >= len c0 ->
  getSharedFragment fragment (c0 :: rest) = Fragment fragment.
Proof.
  intros Hge. funelim (getSharedFragment fragment (c0 :: rest));
    try reflexivity; contradiction.
Qed.

(** [null] is never the result of a recursive call. *)
Lemma getSharedFragment_null (fragment : string) (candidates : list string) :
  getSharedFragment fragment candidates = Null ->
  exists c0 rest,
    candidates = c0 :: rest
    /\ len fragment < len c0
    /\ sharedLoop fragment (extend fragment c0) candidates = ReturnNull.
Proof.
  funelim (getSharedFragment fragment candidates); intros Hnull;
    try discriminate.
  - exists c0, rest. repeat split; auto. lia.
  - match goal with
    | IH : _ = Null -> exists _ _, _ |- _ =>
        destruct (IH Hnull) as (c1 & rest1 & Hc & _ & Hloop)
    end.
    injection Hc as <- <-.
    apply sharedLoop_null in Hloop as (c & Hin & Hc).
    match goal with
    | Hdone : sharedLoop _ _ _ = LoopDone |- _ =>
        rewrite (sharedLoop_done _ _ _ Hdone c Hin) in Hc
    end.
    discriminate.
Qed.

(** The fragment grows no further than the length of the first candidate. *)
Lemma getSharedFragment_length (fragment : string) (candidates : list string) :
  forall c r,
    List.hd_error candidates = Some c ->
    getSharedFragment fragment candidates = Fragment r ->
    len fragment <= len r <= Z.max (len fragment) (len c).
Proof.
  funelim (getSharedFragment fragment candidates); intros c r Hc Hr;
    try discriminate; injection Hc as <-.
  - injection Hr as <-. lia.
  - injection Hr as <-. lia.
  - match goal with
    | IH : forall _ _, _ -> _ -> _ <= _ <= _ |- _ =>
        specialize (IH c0 r eq_refl Hr)
    end.
    rewrite len_extend in * by lia. lia.
Qed.

(** C10: when the fragment is at least as long as the first candidate it is
    returned as it is, whatever the other candidates are; [null] is only
    returned when the fragment is shorter than the first candidate, by the
    loop that follows the extension of the fragment, for a candidate that
    does not start with the fragment; and the result is never longer than
    the longer of the fragment and the first candidate, even when another
    candidate is shorter. *)
Theorem getSharedFragment_stops_at_first_candidate :
  (forall fragment c0 rest,
      len fragment >= len c0 ->
      getSharedFragment fragment (c0 :: rest) = Fragment fragment)
  /\ getSharedFragment "abc" ["ab"; "zzz"] = Fragment "abc"
  /\ (forall fragment candidates,
        getSharedFragment fragment candidates = Null ->
        exists c0 rest,
          candidates = c0 :: rest
          /\ len fragment < len c0
          /\ sharedLoop fragment (extend fragment c0) candidates = ReturnNull
          /\ exists c, In c candidates /\ startsWith c fragment = false)
  /\ (forall fragment c0 rest r,
        getSharedFragment fragment (c0 :: rest) = Fragment r ->
        len fragment <= len r <= Z.max (len fragment) (len c0))
  /\ getSharedFragment "c" ["cats"; "c"] = Fragment "c"
  /\ getSharedFragment "xy" ["abc"; "xy"] = Null.
Proof.
  split; [exact getSharedFragment_base|].
  split; [reflexivity|].
  split.
  { intros fragment candidates Hnull.
    destruct (getSharedFragment_null _ _ Hnull) as (c0 & rest & Hc & Hlt & Hloop).
    exists c0, rest. repeat split; auto.
    now apply sharedLoop_null in Hloop. }
  split.
  { intros fragment c0 rest r Hr.
    now apply (getSharedFragment_length fragment (c0 :: rest) c0 r). }
  split; reflexivity.
Qed.

(* ===================================================================== *)
(** * The controller: what each method changes *)
(* ===================================================================== *)

Section ControllerFacts.

Context {Value : Type}.
Variable parse : string -> list token.

Local Abbreviation controller := (controller Value).

Lemma emit_nil (c : controller) : emit [] c = c.
Proof. destruct c. unfold emit. simpl. now rewrite app_nil_r. Qed.

Lemma emit_emit (a b : list string) (c : controller) :
  emit b (emit a c) = emit (a ++ b) c.
Proof. unfold emit. simpl. now rewrite app_assoc. Qed.

Lemma write_emit (data : string) (c : controller) :
  write data c = emit [data] c.
Proof. reflexivity. Qed.

Lemma writeTimes_emit (from to : Z) (data : string) (c : controller) :
  writeTimes from to data c
  = emit (List.repeat data (Z.to_nat (to - from))) c.
Proof.
  unfold writeTimes. induction (Z.to_nat (to - from)) as [|n IH].
  - simpl. now rewrite emit_nil.
  - simpl Nat.iter. rewrite IH, write_emit, emit_emit.
    f_equal. replace (S n) with (n + 1)%nat by lia.
    rewrite repeat_app. reflexivity.
Qed.

Lemma print_emit (message : string) (c : controller) :
  exists out, print message c = emit out c.
Proof. eexists. unfold print. now rewrite write_emit. Qed.

Lemma println_emit (message : string) (c : controller) :
  exists out, println message c = emit out c.
Proof. apply print_emit. Qed.

Lemma clearInput_emit (c : controller) :
  exists out, clearInput c = emit out c.
Proof.
  eexists. unfold clearInput.
  rewrite !writeTimes_emit, write_emit, !emit_emit. reflexivity.
Qed.

(** [setInput] replaces the buffer and trims the cursor to the new
    buffer; besides that it only writes. *)
Lemma setInput_shape (newInput : string) (clear : bool) (c : controller) :
  exists out,
    setInput newInput clear c
    = set_input newInput
        (set_cursor (Z.min (_cursor c) (len newInput)) (emit out c)).
Proof.
  unfold setInput.
  assert (Hc1 : exists out1, (if clear then clearInput c else c) = emit out1 c).
  { destruct clear; [apply clearInput_emit | exists []; now rewrite emit_nil]. }
  destruct Hc1 as [out1 ->].
  destruct (print_emit (applyPrompts newInput (emit out1 c)) (emit out1 c))
    as [out2 ->].
  rewrite emit_emit.
  change (_cursor (emit (out1 ++ out2) c)) with (_cursor c).
  destruct (_cursor c >? len newInput) eqn:Hcmp.
  - rewrite Z.gtb_ltb in Hcmp. apply Z.ltb_lt in Hcmp.
    rewrite Z.min_r by lia.
    eexists. rewrite !writeTimes_emit, write_emit.
    unfold set_input, set_cursor, emit. simpl.
    rewrite <- !app_assoc. reflexivity.
  - rewrite Z.gtb_ltb in Hcmp. apply Z.ltb_ge in Hcmp.
    rewrite Z.min_l by lia.
    eexists. rewrite !writeTimes_emit, write_emit.
    unfold set_input, set_cursor, emit. simpl.
    rewrite <- !app_assoc. reflexivity.
Qed.

(** [setCursor] clamps its argument; besides that it only writes. *)
Lemma setCursor_shape (newCursor : Z) (c : controller) :
  exists out,
    setCursor newCursor c
    = set_cursor (Z.min (Z.max newCursor 0) (len (_input c))) (emit out c).
Proof.
  unfold setCursor.
  assert (Hclamp :
    (if (if newCursor <? 0 then 0 else newCursor) >? len (_input c)
     then len (_input c)
     else if newCursor <? 0 then 0 else newCursor)
    = Z.min (Z.max newCursor 0) (len (_input c))).
  { pose proof (len_nonneg (_input c)).
    destruct (newCursor <? 0) eqn:Hneg.
    - apply Z.ltb_lt in Hneg. rewrite Z.max_r by lia.
      destruct (0 >? len (_input c)) eqn:Hgt.
      + rewrite Z.gtb_ltb in Hgt. apply Z.ltb_lt in Hgt. lia.
      + rewrite Z.min_l by lia. reflexivity.
    - apply Z.ltb_ge in Hneg. rewrite Z.max_l by lia.
      destruct (newCursor >? len (_input c)) eqn:Hgt.
      + rewrite Z.gtb_ltb in Hgt. apply Z.ltb_lt in Hgt.
        rewrite Z.min_r by lia. reflexivity.
      + rewrite Z.gtb_ltb in Hgt. apply Z.ltb_ge in Hgt.
        rewrite Z.min_l by lia. reflexivity. }
  cbv zeta. rewrite Hclamp.
  set (k := Z.min (Z.max newCursor 0) (len (_input c))).
  match goal with
  | |- context [if ?b then writeTimes ?a1 ?b1 ?d1 c else writeTimes ?a2 ?b2 ?d2 c] =>
      assert (Hv : exists out1,
                 (if b then writeTimes a1 b1 d1 c else writeTimes a2 b2 d2 c)
                 = emit out1 c)
        by (destruct b; rewrite writeTimes_emit; eexists; reflexivity);
      destruct Hv as [out1 ->]
  end.
  match goal with
  | |- context [if ?b then writeTimes ?a1 ?b1 ?d1 ?c1 else writeTimes ?a2 ?b2 ?d2 ?c1] =>
      assert (Hh : exists out2,
                 (if b then writeTimes a1 b1 d1 c1 else writeTimes a2 b2 d2 c1)
                 = emit out2 c1)
        by (destruct b; rewrite writeTimes_emit; eexists; reflexivity);
      destruct Hh as [out2 ->]
  end.
  rewrite emit_emit. eexists. reflexivity.
Qed.

(** The rows of [printWide] are written and nothing else changes. *)
Lemma printRows_emit (n : nat) (itemWidth : Z) (wideCols : nat) :
  forall items (c : controller),
    exists out,
      printRows n itemWidth wideCols items c = Done (emit out c)
      \/ exists e, printRows n itemWidth wideCols items c = Raise e (emit out c).
Proof.
  induction n as [|n IH]; intros items c; simpl.
  - exists []. left. now rewrite emit_nil.
  - destruct (buildRow itemWidth wideCols items "") as [[rowStr rest]|].
    + destruct (println_emit rowStr c) as [out1 ->].
      destruct (IH rest (emit out1 c)) as [out2 [Hd | [e Hr]]];
        exists (out1 ++ out2); rewrite <- emit_emit; eauto.
    + exists []. right. eexists. now rewrite emit_nil.
Qed.

Lemma printWide_emit (items : list string) (padding : Z) (c : controller) :
  printWide items padding c = Hang
  \/ exists out,
       printWide items padding c = Done (emit out c)
       \/ exists e, printWide items padding c = Raise e (emit out c).
Proof.
  unfold printWide. destruct items as [|item items].
  - right. exists []. right. eexists. now rewrite emit_nil.
  - destruct (wideRowsOf _ _) as [wideRows|]; [right | now left].
    apply printRows_emit.
Qed.

(** ** The invariant *)

Ltac shapes :=
  repeat match goal with
    | |- context [setInput ?s ?b ?c] =>
        let out := fresh "out" in
        let H := fresh "H" in
        destruct (setInput_shape s b c) as [out H]; rewrite H; clear H
    | |- context [setCursor ?n ?c] =>
        let out := fresh "out" in
        let H := fresh "H" in
        destruct (setCursor_shape n c) as [out H]; rewrite H; clear H
    | |- context [clearInput ?c] =>
        let out := fresh "out" in
        let H := fresh "H" in
        destruct (clearInput_emit c) as [out H]; rewrite H; clear H
    end.

Ltac lens :=
  repeat match goal with
    | |- context [len ?s] =>
        lazymatch goal with
        | _ : 0 <= len s |- _ => fail
        | _ => pose proof (len_nonneg s)
        end
    end.

Ltac invariant :=
  shapes;
  unfold sessionInvariant, cursorInRange, resumable in *;
  cbn [_input _cursor _activeCharPrompt set_input set_cursor emit
       set_history set_handlers set_active set_activePrompt set_termSize
       set_activeCharPrompt reactions write settle] in *;
  lens; try (intuition lia).

Lemma setInput_invariant (newInput : string) (clear : bool) (c : controller) :
  sessionInvariant c -> sessionInvariant (setInput newInput clear c).
Proof. intros Hc. invariant. Qed.

Lemma setCursor_invariant (newCursor : Z) (c : controller) :
  sessionInvariant c -> sessionInvariant (setCursor newCursor c).
Proof. intros Hc. invariant. Qed.

Lemma clearInput_invariant (c : controller) :
  sessionInvariant c -> sessionInvariant (clearInput c).
Proof. intros Hc. invariant. Qed.

Lemma handleCursorMove_invariant (dir : Z) (c : controller) :
  sessionInvariant c -> sessionInvariant (handleCursorMove dir c).
Proof.
  intros Hc. unfold handleCursorMove.
  destruct (dir >? 0); [|destruct (dir <? 0)]; invariant.
Qed.

Lemma handleCursorErase_invariant (backspace : bool) (c : controller) :
  sessionInvariant c -> sessionInvariant (handleCursorErase backspace c).
Proof.
  intros Hc. unfold handleCursorErase.
  destruct backspace.
  - destruct (_cursor c <=? 0) eqn:Hz; [assumption|].
    apply Z.leb_gt in Hz. invariant.
  - invariant.
Qed.

Lemma handleCursorInsert_invariant (data : string) (c : controller) :
  sessionInvariant c -> sessionInvariant (handleCursorInsert data c).
Proof. intros Hc. unfold handleCursorInsert. invariant. Qed.

Lemma handleReadComplete_invariant (c : controller) :
  sessionInvariant c -> sessionInvariant (handleReadComplete c).
Proof.
  intros Hc. unfold handleReadComplete.
  destruct (isSome _); invariant.
Qed.

Lemma handleTermResize_invariant (data : TermSize) (c : controller) :
  sessionInvariant c -> sessionInvariant (handleTermResize data c).
Proof. intros Hc. unfold handleTermResize. invariant. Qed.

Lemma read_invariant (prompt_ continuation : string) (c : controller) :
  resumable c -> sessionInvariant (read prompt_ continuation c).
Proof.
  intros Hc. unfold read, sessionInvariant, cursorInRange, resumable in *.
  simpl. split; [unfold len; simpl; lia | assumption].
Qed.

Lemma abortRead_invariant (reason : string) (c : controller) :
  sessionInvariant c -> sessionInvariant (abortRead reason c).
Proof.
  intros Hc. unfold abortRead.
  destruct (isSome (_activePrompt c) || isSome (_activeCharPrompt c));
    cbn [_activePrompt _activeCharPrompt write];
    destruct (isSome (_activePrompt c));
    cbn [_activePrompt _activeCharPrompt write set_activePrompt settle];
    destruct (_activeCharPrompt c) eqn:Hp; simpl isSome; cbv iota;
    unfold sessionInvariant, cursorInRange, resumable in *;
    simpl; try rewrite Hp; intuition.
Qed.

Lemma bind_invariant (m : run controller) (k : controller -> run controller) :
  runInvariant m ->
  (forall c, sessionInvariant c -> runInvariant (k c)) ->
  runInvariant (bind m k).
Proof. destruct m; simpl; auto. Qed.

Lemma emit_invariant (out : list string) (c : controller) :
  sessionInvariant c -> sessionInvariant (emit out c).
Proof. intros Hc. invariant. Qed.

Lemma printWide_invariant (items : list string) (padding : Z) (c : controller) :
  sessionInvariant c -> runInvariant (printWide items padding c).
Proof.
  intros Hc.
  destruct (printWide_emit items padding c) as [-> | [out [-> | [e ->]]]];
    simpl; auto using emit_invariant.
Qed.

Lemma resume_invariant (cursor : Z) (c : controller) :
  0 <= cursor -> resumable c -> sessionInvariant (resume cursor c).
Proof. intros Hk Hc. unfold resume. invariant. Qed.

Lemma printAndRestartPrompt_invariant (cb : callback) (c : controller) :
  sessionInvariant c -> runInvariant (printAndRestartPrompt cb c).
Proof.
  intros Hc. unfold printAndRestartPrompt. destruct cb as [candidates|candidates].
  - apply bind_invariant.
    + apply printWide_invariant. invariant.
    + intros c3 Hc3. simpl. apply resume_invariant; [apply Hc | apply Hc3].
  - simpl. unfold andThen, readChar. simpl. invariant.
    split; [lia|]. repeat constructor. lia.
Qed.

Lemma handleTab_invariant (c : controller) :
  sessionInvariant c -> runInvariant (handleTab parse c).
Proof.
  intros Hc. unfold handleTab.
  destruct (sortStrings _) as [|candidate [|candidate' candidates]].
  - destruct (negb _);
      [exact (handleCursorInsert_invariant _ c Hc) | exact Hc].
  - exact (handleCursorInsert_invariant _ c Hc).
  - destruct (_ <=? _).
    + destruct (getSharedFragment _ _) as [sameFragment| |].
      * apply printAndRestartPrompt_invariant.
        destruct (truthy sameFragment); auto using handleCursorInsert_invariant.
      * now apply printAndRestartPrompt_invariant.
      * exact Hc.
    + now apply printAndRestartPrompt_invariant.
Qed.

Lemma set_history_invariant (h : HistoryController.t) (c : controller) :
  sessionInvariant c -> sessionInvariant (set_history h c).
Proof. intros Hc. invariant. Qed.

Lemma handleEscape_invariant (sequence : string) (c : controller) :
  sessionInvariant c -> sessionInvariant (handleEscape sequence c).
Proof.
  intros Hc. unfold handleEscape.
  repeat match goal with
    | |- context [if String.eqb sequence ?k then _ else _] =>
        destruct (String.eqb sequence k)
    end;
    auto using handleCursorMove_invariant, handleCursorErase_invariant,
      setCursor_invariant, setInput_invariant.
  - destruct (HistoryController.getPrevious (history c)) as [[v|] h].
    + destruct (truthy v);
        auto using setCursor_invariant, setInput_invariant,
          set_history_invariant.
    + now apply set_history_invariant.
  - destruct (HistoryController.getNext (history c)) as [value h].
    auto using setCursor_invariant, setInput_invariant, set_history_invariant.
Qed.

Lemma handleControl_invariant (data : string) (c : controller) :
  sessionInvariant c -> runInvariant (handleControl parse data c).
Proof.
  intros Hc. unfold handleControl.
  repeat match goal with
    | |- context [if String.eqb data ?k then _ else _] =>
        destruct (String.eqb data k)
    end.
  - destruct (this_isIncompleteInput c (_input c));
      [exact (handleCursorInsert_invariant _ c Hc)
      | exact (handleReadComplete_invariant c Hc)].
  - exact (handleCursorErase_invariant true c Hc).
  - destruct (_autocompleteHandlers c);
      [exact (handleCursorInsert_invariant _ c Hc)
      | now apply handleTab_invariant].
  - cbn [runInvariant]. invariant.
  - exact Hc.
Qed.

Lemma handleData_invariant (data : string) (c : controller) :
  sessionInvariant c -> runInvariant (handleData parse data c).
Proof.
  intros Hc. unfold handleData.
  destruct (negb (_active c)); [exact Hc|].
  destruct (charCodeAt0 data) as [ord|].
  - destruct (ord =? 27); [exact (handleEscape_invariant _ c Hc)|].
    destruct ((ord <? 32) || (ord =? 127));
      [now apply handleControl_invariant
      | exact (handleCursorInsert_invariant _ c Hc)].
  - exact (handleCursorInsert_invariant _ c Hc).
Qed.

Lemma forEachData_invariant (l : list string) :
  forall c : controller,
    sessionInvariant c -> runInvariant (forEachData parse l c).
Proof.
  induction l as [|d l IH]; intros c Hc; simpl; [exact Hc|].
  apply bind_invariant; [now apply handleData_invariant | exact IH].
Qed.

Lemma react_invariant (yn : string) (rs : list reaction) :
  forall c : controller,
    sessionInvariant c ->
    Forall (fun r => match r with
                     | Resume cursor => 0 <= cursor
                     | DisplayAll _ => True
                     end) rs ->
    runInvariant (react yn rs c).
Proof.
  induction rs as [|[candidates|cursor] rs IH]; intros c Hc Hrs; simpl.
  - exact Hc.
  - inversion Hrs; subst.
    destruct (String.eqb yn "y" || String.eqb yn "Y"); [|now apply IH].
    destruct (printWide_emit candidates 2 c) as [-> | [out [-> | [e ->]]]];
      simpl; auto using emit_invariant.
  - inversion Hrs; subst. apply IH; [|assumption].
    apply resume_invariant; [assumption | apply Hc].
Qed.

Lemma handleTermData_invariant (data : string) (c : controller) :
  sessionInvariant c -> runInvariant (handleTermData parse data c).
Proof.
  intros Hc. unfold handleTermData.
  destruct (negb (_active c)); [exact Hc|].
  destruct (_activeCharPrompt c) as [p|] eqn:Hp.
  - apply react_invariant.
    + destruct Hc as [Hrange _]. split; [exact Hrange|].
      unfold resumable. simpl. exact I.
    + destruct Hc as [_ Hres]. unfold resumable in Hres.
      now rewrite Hp in Hres.
  - destruct (_ && _);
      [now apply forEachData_invariant | now apply handleData_invariant].
Qed.

(** ** The cursor alone: the methods that move it or edit the buffer *)

Lemma setCursor_clamps (newCursor : Z) (c : controller) :
  _cursor (setCursor newCursor c) = Z.min (Z.max newCursor 0) (len (_input c))
  /\ _input (setCursor newCursor c) = _input c.
Proof. destruct (setCursor_shape newCursor c) as [out ->]. auto. Qed.

Lemma setInput_trims (newInput : string) (clear : bool) (c : controller) :
  _cursor (setInput newInput clear c) = Z.min (_cursor c) (len newInput)
  /\ _input (setInput newInput clear c) = newInput.
Proof. destruct (setInput_shape newInput clear c) as [out ->]. auto. Qed.

Lemma setCursor_range (newCursor : Z) (c : controller) :
  cursorInRange (setCursor newCursor c).
Proof. invariant. Qed.

Lemma setInput_range (newInput : string) (clear : bool) (c : controller) :
  cursorInRange c -> cursorInRange (setInput newInput clear c).
Proof. intros Hc. invariant. Qed.

Lemma handleCursorMove_range (dir : Z) (c : controller) :
  cursorInRange c -> cursorInRange (handleCursorMove dir c).
Proof.
  intros Hc. unfold handleCursorMove.
  destruct (dir >? 0); [|destruct (dir <? 0)]; invariant.
Qed.

Lemma handleCursorErase_range (backspace : bool) (c : controller) :
  cursorInRange c -> cursorInRange (handleCursorErase backspace c).
Proof.
  intros Hc. unfold handleCursorErase.
  destruct backspace.
  - destruct (_cursor c <=? 0) eqn:Hz; [assumption|].
    apply Z.leb_gt in Hz. invariant.
  - invariant.
Qed.

Lemma handleCursorInsert_range (data : string) (c : controller) :
  cursorInRange c -> cursorInRange (handleCursorInsert data c).
Proof. intros Hc. unfold handleCursorInsert. invariant. Qed.

(** The up and down arrows. *)
Lemma history_navigation_range (c : controller) :
  cursorInRange c ->
  cursorInRange (handleEscape "[A" c) /\ cursorInRange (handleEscape "[B" c).
Proof.
  intros Hc. unfold handleEscape. simpl String.eqb. cbv iota. split.
  - destruct (HistoryController.getPrevious (history c)) as [[v|] h].
    + destruct (truthy v); invariant.
    + invariant.
  - destruct (HistoryController.getNext (history c)) as [value h].
    invariant.
Qed.

(** Control-C empties the buffer, whatever the state was. *)
Lemma interrupt_resets (c : controller) :
  exists c',
    handleControl parse (str1 ETX) c = Done c'
    /\ _input c' = "" /\ _cursor c' = 0.
Proof. eexists. unfold handleControl. simpl String.eqb. cbv iota. auto. Qed.

Lemma read_resets (prompt_ continuation : string) (c : controller) :
  _input (read prompt_ continuation c) = ""
  /\ _cursor (read prompt_ continuation c) = 0.
Proof. auto. Qed.

(** ** Every state of a session *)

Lemma create_invariant (size : option TermSize) (o : options) :
  sessionInvariant (create Value size o).
Proof.
  unfold sessionInvariant, cursorInRange, resumable, len. simpl.
  split; [lia | exact I].
Qed.

Lemma run_done_invariant (r : run controller) (c' : controller) :
  runInvariant r -> r = Done c' -> sessionInvariant c'.
Proof. intros Hr ->. exact Hr. Qed.

Lemma run_raise_invariant (r : run controller) (e : string) (c' : controller) :
  runInvariant r -> r = Raise e c' -> sessionInvariant c'.
Proof. intros Hr ->. exact Hr. Qed.

Lemma step_invariant (c c' : controller) :
  sessionInvariant c -> step parse c c' -> sessionInvariant c'.
Proof.
  intros Hc Hstep. destruct Hstep;
    try solve [eauto using setInput_invariant, setCursor_invariant, clearInput_invariant,
      handleCursorMove_invariant, handleCursorErase_invariant,
      handleCursorInsert_invariant, handleReadComplete_invariant,
      handleTermResize_invariant, abortRead_invariant,
      run_done_invariant, run_raise_invariant, printWide_invariant,
      handleData_invariant, handleTermData_invariant, emit_invariant].
  - apply read_invariant, Hc.
  - unfold readChar. invariant. split; [lia | constructor].
Qed.

Lemma reachable_invariant (c : controller) :
  reachable parse c -> sessionInvariant c.
Proof.
  induction 1 as [size o | c c' _ IH Hstep];
    [apply create_invariant | exact (step_invariant c c' IH Hstep)].
Qed.

End ControllerFacts.

(* ===================================================================== *)
(** * The wide listing *)
(* ===================================================================== *)

(** C5, what the code does instead: the column count is not clamped.  When
    the widest item with its padding does not fit the terminal, the count is
    0, the number of rows is infinite, and [printWide] never returns. *)
Theorem printWide_hangs_when_too_narrow (Value : Type)
    (items : list string) (padding : Z) (c : controller Value) :
  items <> [] ->
  0 <= cols (_termSize c) < itemWidthOf items padding ->
  wideColsOf (cols (_termSize c)) (itemWidthOf items padding) = Some 0
  /\ wideRowsOf (Z.of_nat (List.length items))
       (wideColsOf (cols (_termSize c)) (itemWidthOf items padding)) = None
  /\ printWide items padding c = Hang.
Proof.
  intros Hitems Hnarrow.
  assert (Hcols : wideColsOf (cols (_termSize c)) (itemWidthOf items padding)
                  = Some 0).
  { unfold wideColsOf.
    destruct (itemWidthOf items padding =? 0) eqn:Hz.
    - apply Z.eqb_eq in Hz. lia.
    - now rewrite Z.div_small. }
  split; [exact Hcols|].
  unfold printWide. rewrite Hcols. simpl.
  destruct items; [contradiction | auto].
Qed.

(** C5 on a terminal of 5 columns: the one item ["abcdef"] with a padding of
    2 needs 8 columns. *)
Lemma printWide_hangs_when_too_narrow_witness :
  wideColsOf 5 (itemWidthOf ["abcdef"] 2) = Some 0
  /\ printWide ["abcdef"] 2
       (create unit (Some {| cols := 5; rows := 24 |}) defaultOptions)
     = Hang.
Proof.
  destruct (printWide_hangs_when_too_narrow unit ["abcdef"] 2
              (create unit (Some {| cols := 5; rows := 24 |}) defaultOptions))
    as (Hcols & _ & Hhang).
  - discriminate.
  - vm_compute. split; [discriminate | reflexivity].
  - split; [exact Hcols | exact Hhang].
Defined.

(* ===================================================================== *)
(** * The session *)
(* ===================================================================== *)

(** C6: in every state of a session the cursor is an offset into the buffer;
    every call of a method keeps the invariant of the session; each of the
    methods that move the cursor or edit the buffer keeps the cursor in the
    buffer; and [setCursor] and [handleCursorMove] clamp what they are asked
    for, as total functions that have no error result. *)
Theorem cursor_stays_in_buffer (Value : Type) (parse : string -> list token) :
  (forall c : controller Value, reachable parse c -> cursorInRange c)
  /\ (forall c c' : controller Value,
        sessionInvariant c -> step parse c c' -> sessionInvariant c')
  /\ (forall c : controller Value,
        cursorInRange c ->
        (forall newCursor, cursorInRange (setCursor newCursor c))
        /\ (forall newInput clear, cursorInRange (setInput newInput clear c))
        /\ (forall dir, cursorInRange (handleCursorMove dir c))
        /\ (forall backspace, cursorInRange (handleCursorErase backspace c))
        /\ (forall data, cursorInRange (handleCursorInsert data c))
        /\ cursorInRange (handleEscape "[A" c)
        /\ cursorInRange (handleEscape "[B" c)
        /\ (exists c', handleControl parse (str1 ETX) c = Done c'
                       /\ cursorInRange c')
        /\ (forall prompt_ continuation,
              cursorInRange (read prompt_ continuation c)))
  /\ (forall (c : controller Value) newCursor,
        _cursor (setCursor newCursor c)
        = Z.min (Z.max newCursor 0) (len (_input c)))
  /\ (forall (c : controller Value) dir,
        cursorInRange c ->
        _cursor (handleCursorMove dir c)
        = Z.min (Z.max (_cursor c + dir) 0) (len (_input c))).
Proof.
  split; [intros c Hc; now apply (reachable_invariant parse c)|].
  split; [exact (step_invariant parse)|].
  split.
  { intros c Hc.
    split; [intros; apply setCursor_range|].
    split; [intros; now apply setInput_range|].
    split; [intros; now apply handleCursorMove_range|].
    split; [intros; now apply handleCursorErase_range|].
    split; [intros; now apply handleCursorInsert_range|].
    split; [now apply history_navigation_range|].
    split; [now apply history_navigation_range|].
    split.
    - destruct (interrupt_resets parse c) as (c' & Hrun & Hin & Hcur).
      exists c'. split; [exact Hrun|].
      unfold cursorInRange. rewrite Hin, Hcur. unfold len. simpl. lia.
    - intros prompt_ continuation. unfold cursorInRange.
      destruct (read_resets prompt_ continuation c) as [-> ->].
      unfold len. simpl. lia. }
  split; [intros c newCursor; apply setCursor_clamps|].
  intros c dir Hc. unfold cursorInRange in Hc. unfold handleCursorMove.
  destruct (dir >? 0) eqn:Hpos.
  - rewrite Z.gtb_ltb in Hpos. apply Z.ltb_lt in Hpos.
    destruct (setCursor_clamps (_cursor c + Z.min dir (len (_input c) - _cursor c)) c)
      as [-> _]. lia.
  - rewrite Z.gtb_ltb in Hpos. apply Z.ltb_ge in Hpos.
    destruct (dir <? 0) eqn:Hneg.
    + apply Z.ltb_lt in Hneg.
      destruct (setCursor_clamps (_cursor c + Z.max dir (- _cursor c)) c)
        as [-> _]. lia.
    + apply Z.ltb_ge in Hneg. lia.
Qed.

(** C7: a resize leaves the buffer and the cursor as they are, and every
    other field but the cached size, which becomes the new size.  What is
    written is the clearing, computed with the old size, then the rendered
    view, a carriage return, and the moves up and right that put the cursor
    back, counted with the new size. *)
Theorem resize_keeps_buffer_and_cursor (Value : Type) (data : TermSize)
    (c : controller Value) :
  cursorInRange c ->
  let view := applyPrompts (_input c) c in
  let p :=
    offsetToColRow view (applyPromptOffset (_input c) (_cursor c) c)
      (cols data) in
  _input (handleTermResize data c) = _input c
  /\ _cursor (handleTermResize data c) = _cursor c
  /\ _termSize (handleTermResize data c) = data
  /\ history (handleTermResize data c) = history c
  /\ _autocompleteHandlers (handleTermResize data c) = _autocompleteHandlers c
  /\ _active (handleTermResize data c) = _active c
  /\ _activePrompt (handleTermResize data c) = _activePrompt c
  /\ _activeCharPrompt (handleTermResize data c) = _activeCharPrompt c
  /\ settled (handleTermResize data c) = settled c
  /\ term (handleTermResize data c)
     = term (clearInput c)
       ++ [replaceLF CRLF (collapseBreaks (str1 LF) view false)]
       ++ [str1 CR]
       ++ List.repeat (CSI "F")
            (Z.to_nat (countLines view (cols data) - row p - 1))
       ++ List.repeat (CSI "C") (Z.to_nat (col p)).
Proof.
  intros [Hlow Hhigh]. cbv zeta. unfold handleTermResize.
  destruct (clearInput_emit c) as [out1 Hclear]. rewrite Hclear.
  unfold setInput, print.
  cbn [_input _cursor set_termSize emit write].
  replace (_cursor c >? len (_input c)) with false
    by (symmetry; rewrite Z.gtb_ltb; apply Z.ltb_ge; lia).
  rewrite !writeTimes_emit, !write_emit, !emit_emit.
  unfold applyPromptOffset, applyPrompts.
  cbn [_input _cursor _termSize _activePrompt set_termSize emit set_input
       history _autocompleteHandlers _active _activeCharPrompt settled term
       cols rows].
  rewrite !Z.sub_0_r, <- !app_assoc. destruct data.
  repeat split; reflexivity.
Qed.

(** C7 in the middle of an edit of two lines, the terminal going from 4 to 3
    columns. *)
Lemma resize_keeps_buffer_and_cursor_witness :
  _input
    (handleTermResize {| cols := 3; rows := 24 |}
       (set_cursor 4
          (set_input ("abc" ++ str1 LF ++ "de")%string
             (read "$ " "> "
                (create unit (Some {| cols := 4; rows := 24 |}) defaultOptions)))))
  = ("abc" ++ str1 LF ++ "de")%string
  /\ _cursor
       (handleTermResize {| cols := 3; rows := 24 |}
          (set_cursor 4
             (set_input ("abc" ++ str1 LF ++ "de")%string
                (read "$ " "> "
                   (create unit (Some {| cols := 4; rows := 24 |})
                      defaultOptions)))))
     = 4.
Proof.
  destruct (resize_keeps_buffer_and_cursor unit {| cols := 3; rows := 24 |}
              (set_cursor 4
                 (set_input ("abc" ++ str1 LF ++ "de")%string
                    (read "$ " "> "
                       (create unit (Some {| cols := 4; rows := 24 |})
                          defaultOptions)))))
    as (Hinput & Hcursor & _).
  - unfold cursorInRange. vm_compute. split; discriminate.
  - split; [exact Hinput | exact Hcursor].
Defined.

(** C3, as the code has it: when the buffer of an active read is judged
    complete, Enter resolves the promise of the read with the buffer, and
    the session is not active any more; the buffer and the cursor stay as
    they are, and become the empty string and 0 when the next read
    starts. *)
Theorem enter_resolves_with_buffer (Value : Type)
    (parse : string -> list token) (c : controller Value) (p : ActivePrompt) :
  _active c = true ->
  _activeCharPrompt c = None ->
  _activePrompt c = Some p ->
  this_isIncompleteInput c (_input c) = false ->
  exists c',
    handleTermData parse (str1 CR) c = Done c'
    /\ settled c' = settled c ++ [LineResolved (_input c)]
    /\ _active c' = false
    /\ _activePrompt c' = None
    /\ _input c' = _input c
    /\ _cursor c' = _cursor c
    /\ forall prompt_ continuation,
         _input (read prompt_ continuation c') = ""
         /\ _cursor (read prompt_ continuation c') = 0.
Proof.
  intros Hactive Hchar Hprompt Hcomplete.
  exists (handleReadComplete c). split.
  - unfold handleTermData, handleData. rewrite Hactive, Hchar. simpl.
    unfold handleControl. simpl. now rewrite Hcomplete.
  - unfold handleReadComplete. simpl. rewrite Hprompt. simpl. auto 10.
Qed.

(** C3 on the session of the specification: a read with the prompt ["$ "],
    the keys [h] and [i], which are inserted at the cursor, then Enter. *)
Lemma enter_resolves_with_buffer_witness :
  exists c3,
    handleTermData oneToken (str1 CR)
      (handleCursorInsert "i"
         (handleCursorInsert "h"
            (read "$ " "> "
               (create unit (Some {| cols := 80; rows := 24 |})
                  defaultOptions))))
    = Done c3
    /\ settled c3 = [LineResolved "hi"]
    /\ _active c3 = false.
Proof.
  destruct (enter_resolves_with_buffer unit oneToken
              (handleCursorInsert "i"
                 (handleCursorInsert "h"
                    (read "$ " "> "
                       (create unit (Some {| cols := 80; rows := 24 |})
                          defaultOptions))))
              {| prompt := "$ "; continuationPrompt := "> " |})
    as (c3 & Hrun & Hsettled & Hactive & _);
    try (vm_compute; reflexivity).
  exists c3. split; [exact Hrun|]. split; [|exact Hactive].
  rewrite Hsettled. vm_compute. reflexivity.
Defined.

(** C3 as stated fails: after the Enter that resolves the read with ["hi"]
    the buffer still is ["hi"] and the cursor still is 2. *)
Lemma enter_does_not_reset_the_buffer :
  match
    feed oneToken ["h"; "i"; str1 CR]
      (read "$ " "> "
         (create unit (Some {| cols := 80; rows := 24 |}) defaultOptions))
  with
  | Done c3 =>
      settled c3 = [LineResolved "hi"]
      /\ _input c3 = "hi"
      /\ _cursor c3 = 2
      /\ _input c3 <> ""
      /\ _cursor c3 <> 0
  | _ => False
  end.
Proof.
  vm_compute. repeat split; discriminate.
Qed.

(* ===================================================================== *)
(** * The examples of the specification, run on the embedding *)
(* ===================================================================== *)

Example isIncompleteInput_open_quote : isIncompleteInput "echo 'hi" = true.
Proof. reflexivity. Qed.

Example isIncompleteInput_plain : isIncompleteInput "echo hi" = false.
Proof. reflexivity. Qed.

Example isIncompleteInput_dangling_and : isIncompleteInput "ls &&" = true.
Proof. reflexivity. Qed.

Example isIncompleteInput_complete_and :
  isIncompleteInput "ls && echo ok" = false.
Proof. reflexivity. Qed.

Example isIncompleteInput_tailing_slash : isIncompleteInput "echo \" = true.
Proof. reflexivity. Qed.

Example isIncompleteInput_blank : isIncompleteInput "   " = false.
Proof. reflexivity. Qed.

Example getSharedFragment_diverging :
  getSharedFragment "ca" ["cat"; "car"] = Fragment "ca".
Proof. reflexivity. Qed.

Example getSharedFragment_growing :
  getSharedFragment "c" ["cat"; "cats"] = Fragment "cat".
Proof. reflexivity. Qed.

Example getSharedFragment_three :
  getSharedFragment "c" ["cd"; "cat"; "cp"] = Fragment "c".
Proof. reflexivity. Qed.

Example offsetToColRow_wraps :
  offsetToColRow "abcdefg" 7 3 = {| row := 1; col := 3 |}
  /\ countLines "abcdefg" 3 = 2.
Proof. split; reflexivity. Qed.

(** A provider that throws between two that return: both are called and
    the error is reported once. *)
Example collect_with_a_failing_provider :
  collectAutocompleteCandidates oneToken
    [ {| fn_id := 1; fn := fun _ _ _ => Returned ["cd"; "ls"]; args := @nil unit |};
      {| fn_id := 2; fn := fun _ _ _ => Thrown "boom"; args := [] |};
      {| fn_id := 3; fn := fun _ _ _ => Returned ["cat"]; args := [] |} ]
    "c"
  = (["cd"; "cat"], [Invoked 1; Invoked 2; ConsoleError "boom"; Invoked 3]).
Proof. reflexivity. Qed.

(** The history of a session: three lines entered in a ring of capacity 2,
    then the up arrow brings back the second line, not the third. *)
Example history_after_three_lines :
  HistoryController.getPrevious
    (HistoryController.pushAll ["a"; "b"; "c"] (HistoryController.create 2))
  = (Some "b", {| HistoryController.size := 2;
                  HistoryController.entries := ["a"; "b"];
                  HistoryController.cursor := 1 |}).
Proof. reflexivity. Qed.

(* ===================================================================== *)
(** * More on the history ring *)
(* ===================================================================== *)

Module HistoryMore.
Import HistoryController.

Lemma at_index_some {A : Type} (l : list A) (i : Z) :
  0 <= i < Z.of_nat (List.length l) -> exists x, at_index l i = Some x.
Proof.
  intros Hi. unfold at_index.
  replace (i <? 0) with false by (symmetry; apply Z.ltb_ge; lia).
  destruct (List.nth_error l (Z.to_nat i)) as [x|] eqn:Hx; [now exists x|].
  apply nth_error_None in Hx. lia.
Qed.

Lemma at_index_none {A : Type} (l : list A) (i : Z) :
  Z.of_nat (List.length l) <= i -> at_index l i = None.
Proof.
  intros Hi. unfold at_index.
  replace (i <? 0) with false by (symmetry; apply Z.ltb_ge; lia).
  apply nth_error_None. lia.
Qed.

Lemma removelast_length {A : Type} (l : list A) (x : A) :
  List.length (List.removelast (l ++ [x])) = List.length l.
Proof. now rewrite removelast_last. Qed.

End HistoryMore.

(** X1: a push never lets the ring grow over its capacity, never stores a
    blank entry, and leaves the cursor past the newest entry or where it
    was. *)
Theorem push_keeps_the_ring (entry : string) (h : HistoryController.t) :
  Z.of_nat (List.length (HistoryController.entries h)) <= HistoryController.size h ->
  Forall (fun e => trim e <> "") (HistoryController.entries h) ->
  0 <= HistoryController.cursor h
    <= Z.of_nat (List.length (HistoryController.entries h)) ->
  Z.of_nat (List.length (HistoryController.entries (HistoryController.push entry h)))
    <= HistoryController.size h
  /\ HistoryController.size (HistoryController.push entry h)
     = HistoryController.size h
  /\ Forall (fun e => trim e <> "")
       (HistoryController.entries (HistoryController.push entry h))
  /\ 0 <= HistoryController.cursor (HistoryController.push entry h)
       <= Z.of_nat (List.length
                      (HistoryController.entries (HistoryController.push entry h))).
Proof.
  intros Hcap Hclean Hcur. unfold HistoryController.push.
  destruct (String.eqb_spec (trim entry) ""); [auto|].
  destruct (HistoryController.looseEq entry _); [auto|].
  destruct (_ >? _) eqn:Hover; simpl.
  - rewrite removelast_last. repeat split; auto; lia.
  - rewrite Z.gtb_ltb in Hover. apply Z.ltb_ge in Hover.
    repeat split; try lia.
    apply Forall_app. split; [assumption | now repeat constructor].
Qed.

Lemma push_keeps_the_ring_witness :
  Z.of_nat (List.length
              (HistoryController.entries
                 (HistoryController.push "ls"
                    (HistoryController.pushAll ["cd"; "pwd"]
                       (HistoryController.create 2)))))
  <= 2.
Proof.
  apply (push_keeps_the_ring "ls"
           (HistoryController.pushAll ["cd"; "pwd"] (HistoryController.create 2))).
  - vm_compute. discriminate.
  - repeat constructor; discriminate.
  - vm_compute. split; discriminate.
Defined.

(** X2: the two navigation calls keep the cursor between 0 and the number of
    entries; [getPrevious] finds an entry whenever there is one, and
    [getNext] finds none exactly when it reaches the position past the
    newest entry. *)
Theorem navigation_stays_in_the_ring (h : HistoryController.t) :
  0 <= HistoryController.cursor h
    <= Z.of_nat (List.length (HistoryController.entries h)) ->
  (0 <= HistoryController.cursor (snd (HistoryController.getPrevious h))
     <= Z.of_nat (List.length (HistoryController.entries h))
   /\ HistoryController.entries (snd (HistoryController.getPrevious h))
      = HistoryController.entries h
   /\ (HistoryController.entries h <> [] ->
       exists e, fst (HistoryController.getPrevious h) = Some e))
  /\ (0 <= HistoryController.cursor (snd (HistoryController.getNext h))
        <= Z.of_nat (List.length (HistoryController.entries h))
      /\ HistoryController.entries (snd (HistoryController.getNext h))
         = HistoryController.entries h
      /\ (fst (HistoryController.getNext h) = None
          <-> HistoryController.cursor (snd (HistoryController.getNext h))
              = Z.of_nat (List.length (HistoryController.entries h)))).
Proof.
  intros Hcur. unfold HistoryController.getPrevious, HistoryController.getNext.
  simpl. split; [split; [lia | split; [reflexivity|]] | split; [lia | split; [reflexivity|]]].
  - intros Hne. apply HistoryMore.at_index_some.
    destruct (HistoryController.entries h); [contradiction | simpl in *; lia].
  - split.
    + intros Hnone.
      destruct (Z.eq_dec
                  (Z.min (Z.of_nat (List.length (HistoryController.entries h)))
                     (HistoryController.cursor h + 1))
                  (Z.of_nat (List.length (HistoryController.entries h))))
        as [Heq | Hneq]; [exact Heq|].
      destruct (HistoryMore.at_index_some (HistoryController.entries h)
                  (Z.min (Z.of_nat (List.length (HistoryController.entries h)))
                     (HistoryController.cursor h + 1))) as [x Hx]; [lia|].
      congruence.
    + intros Heq. rewrite Heq. apply HistoryMore.at_index_none. lia.
Qed.

Lemma navigation_stays_in_the_ring_witness :
  exists e,
    fst (HistoryController.getPrevious
           (HistoryController.pushAll ["cd"; "pwd"] (HistoryController.create 5)))
    = Some e.
Proof.
  destruct (navigation_stays_in_the_ring
              (HistoryController.pushAll ["cd"; "pwd"]
                 (HistoryController.create 5)))
    as [(_ & _ & Hfound) _]; [vm_compute; split; discriminate|].
  apply Hfound. vm_compute. discriminate.
Defined.

(** A push that finds room, said with the two tests of [push]. *)
Lemma push_appends (entry : string) (h : HistoryController.t) :
  trim entry <> "" ->
  HistoryController.lastEntry h <> Some entry ->
  Z.of_nat (List.length (HistoryController.entries h)) < HistoryController.size h ->
  HistoryController.push entry h
  = {| HistoryController.size := HistoryController.size h;
       HistoryController.entries := HistoryController.entries h ++ [entry];
       HistoryController.cursor :=
         Z.of_nat (List.length (HistoryController.entries h ++ [entry])) |}.
Proof.
  intros Hblank Hlast Hroom. apply HistoryFacts.push_room; [|assumption].
  simpl. destruct (String.eqb_spec (trim entry) ""); [contradiction|].
  unfold HistoryController.looseEq.
  destruct (HistoryController.lastEntry h) as [e|]; [|reflexivity].
  destruct (String.eqb_spec entry e); [subst; contradiction | reflexivity].
Qed.

(** X3: while the ring has room, an entry that is not blank and differs from
    the newest one is what [getPrevious] returns right after its push. *)
Theorem push_then_previous (entry : string) (h : HistoryController.t) :
  trim entry <> "" ->
  HistoryController.lastEntry h <> Some entry ->
  Z.of_nat (List.length (HistoryController.entries h)) < HistoryController.size h ->
  fst (HistoryController.getPrevious (HistoryController.push entry h))
  = Some entry
  /\ HistoryController.entries (HistoryController.push entry h)
     = HistoryController.entries h ++ [entry].
Proof.
  intros Hblank Hlast Hroom.
  rewrite push_appends by assumption.
  unfold HistoryController.getPrevious. simpl. split; [|reflexivity].
  replace (Z.max 0 (Z.of_nat (List.length (HistoryController.entries h ++ [entry])) - 1))
    with (Z.of_nat (List.length (HistoryController.entries h ++ [entry])) - 1)
    by (rewrite length_app; simpl; lia).
  apply at_index_last.
Qed.

Lemma push_then_previous_witness :
  fst (HistoryController.getPrevious
         (HistoryController.push "ls" (HistoryController.create 3)))
  = Some "ls".
Proof.
  apply (push_then_previous "ls" (HistoryController.create 3));
    [discriminate | discriminate | vm_compute; reflexivity].
Defined.

(** X4: [getNext] undoes a [getPrevious] that moved the cursor; at the oldest
    entry [getPrevious] stays there. *)
Theorem next_undoes_previous (h : HistoryController.t) :
  0 <= HistoryController.cursor h
    <= Z.of_nat (List.length (HistoryController.entries h)) ->
  (0 < HistoryController.cursor h ->
   snd (HistoryController.getNext (snd (HistoryController.getPrevious h))) = h)
  /\ (HistoryController.cursor h = 0 ->
      snd (HistoryController.getPrevious h) = h).
Proof.
  intros Hcur. destruct h as [sz es cur]. simpl in *.
  unfold HistoryController.getNext, HistoryController.getPrevious. simpl.
  split; intros H; f_equal; lia.
Qed.

Lemma next_undoes_previous_witness :
  snd (HistoryController.getNext
         (snd (HistoryController.getPrevious
                 (HistoryController.pushAll ["cd"; "pwd"]
                    (HistoryController.create 5)))))
  = HistoryController.pushAll ["cd"; "pwd"] (HistoryController.create 5).
Proof.
  apply (next_undoes_previous
           (HistoryController.pushAll ["cd"; "pwd"] (HistoryController.create 5)));
    vm_compute; [split; discriminate | reflexivity].
Defined.

(* ===================================================================== *)
(** * More on the text geometry *)
(* ===================================================================== *)

Section GeometryMore.

Variable maxCols : Z.
Hypothesis maxCols_nonneg : 0 <= maxCols.

Lemma advance_col (chr : string) (p : ColRow) :
  0 <= col p <= maxCols -> 0 <= col (advance maxCols chr p) <= maxCols.
Proof.
  intros Hp. unfold advance.
  destruct (String.eqb chr (str1 LF)); simpl; [lia|].
  destruct (col p + 1 >? maxCols) eqn:Hw; simpl; [lia|].
  rewrite Z.gtb_ltb in Hw. apply Z.ltb_ge in Hw. lia.
Qed.

Lemma loop_col (input : string) (n : nat) :
  forall i p,
    0 <= col p <= maxCols ->
    0 <= col (offsetToColRow_loop input maxCols n i p) <= maxCols.
Proof.
  induction n as [|n IH]; intros i p Hp; simpl; [exact Hp|].
  apply IH. now apply advance_col.
Qed.

Lemma loop_row_upper (input : string) (n : nat) :
  forall i p,
    row (offsetToColRow_loop input maxCols n i p) <= row p + Z.of_nat n.
Proof.
  induction n as [|n IH]; intros i p; simpl offsetToColRow_loop; [lia|].
  pose proof (advance_row maxCols (charAt input i) p).
  specialize (IH (i + 1) (advance maxCols (charAt input i) p)). lia.
Qed.

(** One more turn of the loop, at the end. *)
Lemma loop_succ (input : string) (n : nat) (p : ColRow) :
  offsetToColRow_loop input maxCols (S n) 0 p
  = advance maxCols (charAt input (Z.of_nat n))
      (offsetToColRow_loop input maxCols n 0 p).
Proof.
  replace (S n) with (n + 1)%nat by lia.
  rewrite loop_add. reflexivity.
Qed.

Lemma loop_closed_form (input : string) (n : nat) :
  (forall i, 0 <= i < Z.of_nat n -> charAt input i <> str1 LF) ->
  offsetToColRow_loop input maxCols n 0 {| row := 0; col := 0 |}
  = {| row := Z.of_nat n / (maxCols + 1);
       col := Z.of_nat n mod (maxCols + 1) |}.
Proof.
  induction n as [|n IH]; intros Hno.
  - simpl. now rewrite Z.div_0_l, Z.mod_0_l by lia.
  - rewrite loop_succ, IH by (intros i Hi; apply Hno; lia).
    unfold advance.
    destruct (String.eqb_spec (charAt input (Z.of_nat n)) (str1 LF)) as [Heq|_];
      [exfalso; apply (Hno (Z.of_nat n)); [lia | exact Heq]|].
    cbn [row col].
    pose proof (Z.div_mod (Z.of_nat n) (maxCols + 1) ltac:(lia)) as Hdm.
    pose proof (Z.mod_pos_bound (Z.of_nat n) (maxCols + 1) ltac:(lia)) as Hb.
    set (q := Z.of_nat n / (maxCols + 1)) in *.
    set (r := Z.of_nat n mod (maxCols + 1)) in *.
    destruct (r + 1 >? maxCols) eqn:Hw.
    + rewrite Z.gtb_ltb in Hw. apply Z.ltb_lt in Hw.
      assert (Hr : r = maxCols) by lia.
      f_equal.
      * apply (Z.div_unique _ _ (q + 1) 0); lia.
      * apply (Z.mod_unique _ _ (q + 1) 0); lia.
    + rewrite Z.gtb_ltb in Hw. apply Z.ltb_ge in Hw.
      f_equal.
      * apply (Z.div_unique _ _ q (r + 1)); lia.
      * apply (Z.mod_unique _ _ q (r + 1)); lia.
Qed.

End GeometryMore.

(** X5: for a width that is not negative, the column of every offset lies
    between 0 and the width, and the row between 0 and the offset. *)
Theorem offsetToColRow_bounds (input : string) (offset maxCols : Z) :
  0 <= maxCols ->
  0 <= col (offsetToColRow input offset maxCols) <= maxCols
  /\ 0 <= row (offsetToColRow input offset maxCols) <= Z.max offset 0.
Proof.
  intros Hw. unfold offsetToColRow. split.
  - apply loop_col; simpl; lia.
  - pose proof (loop_row_mono maxCols input (Z.to_nat offset) 0
                  {| row := 0; col := 0 |}) as Hlow.
    pose proof (loop_row_upper maxCols input (Z.to_nat offset) 0
                  {| row := 0; col := 0 |}) as Hup.
    simpl in *. lia.
Qed.

Lemma offsetToColRow_bounds_witness :
  0 <= col (offsetToColRow "hello world" 7 4) <= 4.
Proof. apply (offsetToColRow_bounds "hello world" 7 4). lia. Defined.

(** X6: when no line feed is among the characters before the offset, the
    position is the quotient and the remainder of the offset by the width
    plus one: the position comes back to column 0 every [maxCols + 1]
    characters.  Offsets past the end of the text count on. *)
Theorem offsetToColRow_without_line_feed (input : string) (offset maxCols : Z) :
  0 <= maxCols ->
  0 <= offset ->
  (forall i, 0 <= i < offset -> charAt input i <> str1 LF) ->
  offsetToColRow input offset maxCols
  = {| row := offset / (maxCols + 1); col := offset mod (maxCols + 1) |}.
Proof.
  intros Hw Ho Hno. unfold offsetToColRow.
  rewrite loop_closed_form by (try assumption; intros i Hi; apply Hno; lia).
  now rewrite Z2Nat.id by assumption.
Qed.

Lemma offsetToColRow_without_line_feed_witness :
  offsetToColRow "ab" 7 2 = {| row := 7 / (2 + 1); col := 7 mod (2 + 1) |}.
Proof.
  apply offsetToColRow_without_line_feed; [lia | lia |].
  intros i Hi.
  assert (Hcases : i = 0 \/ i = 1 \/ i = 2 \/ i = 3 \/ i = 4 \/ i = 5 \/ i = 6)
    by lia.
  destruct Hcases as [-> | [-> | [-> | [-> | [-> | [-> | ->]]]]]];
    vm_compute; discriminate.
Defined.

(* ===================================================================== *)
(** * More on the word boundaries *)
(* ===================================================================== *)

(** X7: both closest boundaries are offsets into the text; from an offset
    above 0 the left one is strictly on the left, and from an offset below
    the length the right one is strictly on the right. *)
Theorem closest_boundaries_in_text (input : string) (offset : Z) :
  0 <= closestLeftBoundary input offset <= len input
  /\ 0 <= closestRightBoundary input offset <= len input
  /\ (0 < offset -> closestLeftBoundary input offset < offset)
  /\ (offset < len input -> offset < closestRightBoundary input offset).
Proof.
  pose proof (len_nonneg input) as Hlen.
  pose proof (wordBoundaries_from_lower true input 0 false) as Hll.
  pose proof (wordBoundaries_from_upper true input 0 false) as Hlu.
  pose proof (wordBoundaries_from_lower false input 0 false) as Hrl.
  pose proof (wordBoundaries_from_upper false input 0 false) as Hru.
  rewrite Forall_forall in *.
  unfold closestLeftBoundary, closestRightBoundary, wordBoundaries.
  destruct (List.find (fun x => x <? offset) _) as [l|] eqn:Hl;
    destruct (List.find (fun x => x >? offset) _) as [r|] eqn:Hr.
  all: try (apply find_some in Hl as [Hinl Hpl]; apply in_rev in Hinl;
            apply Z.ltb_lt in Hpl;
            pose proof (Hll _ Hinl); pose proof (Hlu _ Hinl)).
  all: try (apply find_some in Hr as [Hinr Hpr]; apply Z.gtb_lt in Hpr;
            pose proof (Hrl _ Hinr); pose proof (Hru _ Hinr)).
  all: repeat split; intros; lia.
Qed.

Section BoundariesMore.

(** Where the scan is in the middle of the text: [w] says that the character
    before the rest [s] is a word character. *)
Let before (s : string) (k : nat) (w : bool) : bool :=
  match k with
  | O => w
  | S k' => wordAt s k'
  end.

Lemma starts_from (s : string) :
  forall i w b,
    In b (wordBoundaries_from true s i w)
    <-> exists k : nat,
          b = i + Z.of_nat k /\ wordAt s k = true /\ before s k w = false.
Proof.
  induction s as [|c s IH]; intros i w b.
  - simpl. rewrite andb_false_r. split; [contradiction|].
    intros (k & _ & Hk & _). destruct k; discriminate.
  - cbn [wordBoundaries_from negb]. rewrite andb_true_r.
    destruct (isWordChar c) eqn:Hc.
    + rewrite in_app_iff, IH. split.
      * intros [Hhere | (k & -> & Hk & Hb)].
        -- destruct w; simpl in Hhere; [contradiction|].
           destruct Hhere as [<- | []]. exists O.
           unfold wordAt. simpl. rewrite Hc. split; [lia | auto].
        -- destruct k as [|k]; [simpl in Hb; discriminate|].
           exists (S (S k)). split; [lia | auto].
      * intros (k & -> & Hk & Hb). destruct k as [|k].
        -- left. simpl in Hb. subst w. simpl. left. lia.
        -- right. destruct k as [|k].
           ++ simpl in Hb. unfold wordAt in Hb. simpl in Hb. congruence.
           ++ exists (S k). split; [lia | auto].
    + rewrite andb_false_r. simpl app. rewrite IH. split.
      * intros (k & -> & Hk & Hb). destruct k as [|k].
        -- exists 1%nat. split; [lia|]. split; [exact Hk|].
           simpl. unfold wordAt. simpl. exact Hc.
        -- exists (S (S k)). split; [lia | auto].
      * intros (k & -> & Hk & Hb). destruct k as [|k].
        -- unfold wordAt in Hk. simpl in Hk. congruence.
        -- destruct k as [|k].
           ++ exists O. split; [lia | auto].
           ++ exists (S k). split; [lia | auto].
Qed.

Lemma ends_from (s : string) :
  forall i w b,
    In b (wordBoundaries_from false s i w)
    <-> exists k : nat,
          b = i + Z.of_nat k /\ (k <= String.length s)%nat
          /\ wordAt s k = false /\ before s k w = true.
Proof.
  induction s as [|c s IH]; intros i w b.
  - simpl. rewrite andb_true_r. split.
    + destruct w; simpl; [|contradiction].
      intros [<- | []]. exists O. split; [lia | auto].
    + intros (k & -> & Hk & _ & Hb).
      assert (k = O) by lia. subst k. simpl in Hb. subst w.
      simpl. left. lia.
  - cbn [wordBoundaries_from negb]. rewrite andb_false_r, andb_true_r.
    destruct (isWordChar c) eqn:Hc.
    + simpl app. rewrite IH. split.
      * intros (k & -> & Hlen & Hk & Hb). destruct k as [|k].
        -- exists 1%nat. simpl. split; [lia|]. split; [lia|].
           split; [exact Hk|]. unfold wordAt. simpl. exact Hc.
        -- exists (S (S k)). simpl. split; [lia|]. split; [lia | auto].
      * intros (k & -> & Hlen & Hk & Hb). simpl in Hlen. destruct k as [|k].
        -- unfold wordAt in Hk. simpl in Hk. congruence.
        -- destruct k as [|k].
           ++ exists O. split; [lia|]. split; [lia | auto].
           ++ exists (S k). split; [lia|]. split; [lia | auto].
    + rewrite in_app_iff, IH. split.
      * intros [Hhere | (k & -> & Hlen & Hk & Hb)].
        -- destruct w; simpl in Hhere; [|contradiction].
           destruct Hhere as [<- | []]. exists O. simpl.
           split; [lia|]. split; [lia|]. unfold wordAt. simpl. auto.
        -- destruct k as [|k]; [simpl in Hb; discriminate|].
           exists (S (S k)). simpl. split; [lia|]. split; [lia | auto].
      * intros (k & -> & Hlen & Hk & Hb). simpl in Hlen. destruct k as [|k].
        -- left. simpl in Hb. subst w. simpl. left. lia.
        -- right. destruct k as [|k].
           ++ simpl in Hb. unfold wordAt in Hb. simpl in Hb. congruence.
           ++ exists (S k). split; [lia|]. split; [lia | auto].
Qed.

End BoundariesMore.

(** X8: the left boundaries are exactly the indexes of a word character that
    no word character precedes, and the right boundaries exactly the indexes
    up to the length that hold no word character and that a word character
    precedes. *)
Theorem wordBoundaries_are_the_word_edges (input : string) (b : Z) :
  (In b (wordBoundaries input true)
   <-> exists k : nat,
         b = Z.of_nat k /\ wordAt input k = true /\ wordBefore input k = false)
  /\ (In b (wordBoundaries input false)
      <-> exists k : nat,
            b = Z.of_nat k /\ (k <= String.length input)%nat
            /\ wordAt input k = false /\ wordBefore input k = true).
Proof.
  unfold wordBoundaries. split.
  - rewrite starts_from. split; intros (k & Hb & Hk & Hbefore);
      exists k; (split; [lia|]); split; auto; destruct k; auto.
  - rewrite ends_from. split; intros (k & Hb & Hlen & Hk & Hbefore);
      exists k; (split; [lia|]); repeat split; auto; destruct k; auto.
Qed.

(* ===================================================================== *)
(** * More on strings *)
(* ===================================================================== *)

Lemma substring_split (s : string) :
  forall n : nat,
    (n <= String.length s)%nat ->
    (String.substring 0 n s
     ++ String.substring n (String.length s - n) s)%string = s.
Proof.
  induction s as [|c s IH]; intros n Hn; simpl in Hn.
  - assert (n = O) by lia. subst n. reflexivity.
  - destruct n as [|n].
    + simpl. f_equal.
      clear IH Hn. induction s as [|d s IHs]; simpl; [reflexivity | now f_equal].
    + simpl. f_equal. apply IH. lia.
Qed.

Lemma substring_take_append (a b : string) :
  String.substring 0 (String.length a) (a ++ b)%string = a.
Proof.
  induction a as [|c a IH]; simpl; [|now f_equal].
  destruct b; reflexivity.
Qed.

Lemma substring_whole (s : string) :
  String.substring 0 (String.length s) s = s.
Proof. induction s as [|c s IH]; simpl; [reflexivity | now f_equal]. Qed.

Lemma substring_drop_append (a b : string) :
  String.substring (String.length a) (String.length b) (a ++ b)%string = b.
Proof.
  induction a as [|c a IH]; simpl; [apply substring_whole | exact IH].
Qed.

Lemma substring_length (s : string) :
  forall n m : nat,
    (n + m <= String.length s)%nat ->
    String.length (String.substring n m s) = m.
Proof.
  induction s as [|c s IH]; intros n m Hnm; simpl in Hnm.
  - assert (n = O) by lia. assert (m = O) by lia. subst. reflexivity.
  - destruct n as [|n]; simpl.
    + destruct m as [|m]; simpl; [reflexivity|]. f_equal. apply IH. simpl. lia.
    + apply IH. lia.
Qed.

(** [substr(0, k)] and [substr(k)] for an offset into the text. *)
Lemma substr2_take (s : string) (k : Z) :
  0 <= k <= len s ->
  substr2 s 0 k = String.substring 0 (Z.to_nat k) s.
Proof.
  intros Hk. unfold substr2. change (0 <? 0) with false. cbv iota.
  f_equal; lia.
Qed.

Lemma substr_drop (s : string) (k : Z) :
  0 <= k <= len s ->
  substr s k
  = String.substring (Z.to_nat k) (String.length s - Z.to_nat k) s.
Proof.
  intros Hk. unfold substr, substr2.
  replace (k <? 0) with false by (symmetry; apply Z.ltb_ge; lia).
  unfold len in *. f_equal; lia.
Qed.

Lemma substr_split (s : string) (k : Z) :
  0 <= k <= len s -> (substr2 s 0 k ++ substr s k)%string = s.
Proof.
  intros Hk. rewrite substr2_take, substr_drop by assumption.
  apply substring_split. unfold len in Hk. lia.
Qed.

Lemma substr2_append (a b : string) : substr2 (a ++ b)%string 0 (len a) = a.
Proof.
  rewrite substr2_take by (rewrite len_append; pose proof (len_nonneg a);
                           pose proof (len_nonneg b); lia).
  unfold len. rewrite Nat2Z.id. apply substring_take_append.
Qed.

Lemma substr_append (a b : string) : substr (a ++ b)%string (len a) = b.
Proof.
  rewrite substr_drop by (rewrite len_append; pose proof (len_nonneg a);
                          pose proof (len_nonneg b); lia).
  unfold len. rewrite Nat2Z.id, length_append.
  replace (String.length a + String.length b - String.length a)%nat
    with (String.length b) by lia.
  apply substring_drop_append.
Qed.

Lemma len_substr2_take (s : string) (k : Z) :
  0 <= k <= len s -> len (substr2 s 0 k) = k.
Proof.
  intros Hk. rewrite substr2_take by assumption. unfold len in *.
  rewrite substring_length by lia. lia.
Qed.

Lemma prefix_append (a b : string) : String.prefix a (a ++ b)%string = true.
Proof.
  induction a as [|c a IH]; simpl; [now destruct b|].
  destruct (ascii_dec c c); [exact IH | contradiction].
Qed.

Lemma prefix_trans (a : string) :
  forall b c,
    String.prefix a b = true -> String.prefix b c = true ->
    String.prefix a c = true.
Proof.
  induction a as [|x a IH]; intros b c Hab Hbc; [now destruct c|].
  destruct b as [|y b]; [discriminate|].
  destruct c as [|z c]; [discriminate|].
  simpl in *.
  destruct (ascii_dec x y); [subst|discriminate].
  destruct (ascii_dec y z); [subst|discriminate].
  now apply (IH b c).
Qed.

(** A text is its prefix followed by what [substr] leaves after the
    prefix. *)
Lemma prefix_then_rest (p c : string) :
  startsWith c p = true -> (p ++ substr c (len p))%string = c.
Proof.
  unfold startsWith. intros Hp.
  apply prefix_correct in Hp.
  assert (Hlen : (String.length p <= String.length c)%nat).
  { destruct (Nat.le_gt_cases (String.length p) (String.length c)) as [H|H];
      [exact H|].
    assert (Hl : String.length (String.substring 0 (String.length p) c)
                 = String.length p) by now rewrite Hp.
    clear Hp. revert Hl H. generalize (String.length p) as n.
    induction c as [|x c IH]; intros n Hl H; simpl in *.
    - destruct n; simpl in Hl; lia.
    - destruct n as [|n]; [lia|]. simpl in Hl.
      injection Hl as Hl. apply IH in Hl; lia. }
  rewrite <- Hp at 1.
  rewrite substr_drop by (unfold len; lia).
  unfold len. rewrite Nat2Z.id. apply substring_split. lia.
Qed.

(* ===================================================================== *)
(** * More on the continuation predicate *)
(* ===================================================================== *)

Lemma splitOperators_from_nonempty (s : string) :
  forall seg, splitOperators_from s seg <> [].
Proof.
  induction s as [|c s IH]; intros seg; simpl; [discriminate|].
  destruct (Ascii.eqb c PIPE).
  - destruct s as [|d s]; [discriminate|]. destruct (Ascii.eqb d PIPE); discriminate.
  - destruct (Ascii.eqb c AMP); [|apply IH].
    destruct s as [|d s]; [apply IH|].
    destruct (Ascii.eqb d AMP); [discriminate | apply IH].
Qed.

Lemma last_cons2 (a b : string) (l : list string) :
  l <> [] -> List.last (a :: b :: l) "" = List.last l "".
Proof. destruct l; [contradiction | reflexivity]. Qed.

(** After a pipe at the end the last piece of the split is empty. *)
Lemma last_segment_after_pipe (n : nat) :
  forall s seg,
    (String.length s <= n)%nat ->
    List.last (splitOperators_from (s ++ str1 PIPE) seg) "" = "".
Proof.
  induction n as [|n IH]; intros s seg Hn.
  - destruct s; [reflexivity | simpl in Hn; lia].
  - destruct s as [|c s]; [reflexivity|].
    simpl in Hn. cbn [String.append splitOperators_from].
    destruct (Ascii.eqb c PIPE).
    + destruct s as [|d s]; [reflexivity|].
      cbn [String.append]. destruct (Ascii.eqb d PIPE).
      * rewrite last_cons2 by apply splitOperators_from_nonempty.
        apply IH. simpl in Hn. lia.
      * rewrite last_cons2 by apply splitOperators_from_nonempty.
        apply (IH (String d s)). lia.
    + destruct (Ascii.eqb c AMP); [|apply IH; lia].
      destruct s as [|d s]; [apply (IH ""%string); simpl; lia|].
      cbn [String.append]. destruct (Ascii.eqb d AMP).
      * rewrite last_cons2 by apply splitOperators_from_nonempty.
        apply IH. simpl in Hn. lia.
      * apply (IH (String d s)). lia.
Qed.

Lemma trimEnd_pipe (t : string) : trimEnd (t ++ str1 PIPE) <> "".
Proof.
  induction t as [|c t IH]; simpl; [discriminate|].
  destruct (trimEnd (t ++ str1 PIPE)); [contradiction | discriminate].
Qed.

Lemma trim_pipe (s : string) : trim (s ++ str1 PIPE) <> "".
Proof.
  unfold trim.
  assert (H : exists t, trimStart (s ++ str1 PIPE) = (t ++ str1 PIPE)%string).
  { induction s as [|c s IH]; [now exists ""%string|].
    simpl. destruct (isWhiteSpace c); [exact IH | now exists (String c s)]. }
  destruct H as [t ->]. apply trimEnd_pipe.
Qed.

(** X9: an input that ends with a pipe is judged incomplete, whatever comes
    before the pipe. *)
Theorem input_ending_with_a_pipe_is_incomplete (s : string) :
  isIncompleteInput (s ++ str1 PIPE) = true.
Proof.
  unfold isIncompleteInput.
  destruct (String.eqb_spec (trim (s ++ str1 PIPE)) "") as [Hblank|_];
    [now apply trim_pipe in Hblank|].
  destruct (danglingSingleQuote _); [reflexivity|].
  destruct (danglingDoubleQuote _); [reflexivity|].
  unfold danglingOperator, popString, splitOperators.
  now rewrite (last_segment_after_pipe (String.length s) s "" (Nat.le_refl _)).
Qed.

Lemma hasTailingWhitespace_step (x y : ascii) (rest : string) :
  hasTailingWhitespace (String x (String y rest))
  = (negb (Ascii.eqb x BSLASH)
     && (Ascii.eqb y SPACE || Ascii.eqb y TAB)
     && atLineEnd rest)
    || hasTailingWhitespace (String y rest).
Proof. reflexivity. Qed.

(** X10: once a line ends with a blank or a tab that no backslash precedes,
    the text is judged to end with white space whatever the lines after it
    are: the test looks at the end of every line. *)
Theorem hasTailingWhitespace_of_an_earlier_line (a b : string) :
  hasTailingWhitespace a = true ->
  hasTailingWhitespace (a ++ String LF b) = true.
Proof.
  induction a as [|x a IH]; [discriminate|].
  destruct a as [|y rest]; [discriminate|].
  change ((String x (String y rest) ++ String LF b)%string)
    with (String x (String y (rest ++ String LF b))).
  change ((String y rest ++ String LF b)%string)
    with (String y (rest ++ String LF b)) in IH.
  rewrite !hasTailingWhitespace_step. intros H.
  apply orb_true_iff in H as [H | H].
  - apply andb_true_iff in H as [Hxy Hend]. rewrite Hxy.
    destruct rest; [reflexivity | simpl in *; now rewrite Hend].
  - rewrite (IH H). apply orb_true_r.
Qed.

Lemma hasTailingWhitespace_of_an_earlier_line_witness :
  hasTailingWhitespace ("ls " ++ String LF "cat") = true.
Proof.
  apply (hasTailingWhitespace_of_an_earlier_line "ls " "cat"). reflexivity.
Defined.

(* ===================================================================== *)
(** * More on the completion *)
(* ===================================================================== *)

Section CompletionMore.

Context {Value : Type}.
Variable parse : string -> list token.

Lemma completionTarget_expr (input : string) :
  snd (completionTarget parse input) = getLastToken parse input.
Proof.
  unfold completionTarget, getLastToken.
  destruct (String.eqb (trim input) ""); [reflexivity|].
  destruct (hasTailingWhitespace input); reflexivity.
Qed.

(** The candidates without the trace. *)
Lemma collect_candidates (callbacks : list (handler Value)) (input : string) :
  fst (collectAutocompleteCandidates parse callbacks input)
  = List.filter
      (fun txt => startsWith txt (tokenToString (getLastToken parse input)))
      (List.concat
         (List.map
            (contribution (fst (completionTarget parse input)) (parse input))
            callbacks)).
Proof.
  rewrite <- completionTarget_expr. unfold collectAutocompleteCandidates.
  destruct (completionTarget parse input) as [index expr]. simpl fst. simpl snd.
  pose proof (reduce_providers index (parse input) callbacks [] []) as H.
  cbv zeta in H.
  destruct (List.fold_left _ callbacks ([], [])) as [all effects].
  simpl in *. destruct H as (-> & _). reflexivity.
Qed.

End CompletionMore.

(** X11: the expression that the candidates are filtered by is the last
    token that [getLastToken] gives; so for a last token that is a string,
    every candidate is that token followed by what
    [candidate.substr(lastToken.length)] takes from it: inserting this rest
    after the typed token spells the candidate. *)
Theorem candidates_extend_the_last_token (Value : Type)
    (parse : string -> list token) (callbacks : list (handler Value))
    (input : string) :
  snd (completionTarget parse input) = getLastToken parse input
  /\ forall candidate t,
       In candidate (fst (collectAutocompleteCandidates parse callbacks input)) ->
       getLastToken parse input = TStr t ->
       (t ++ substr candidate (tokenLength (getLastToken parse input)))%string
       = candidate.
Proof.
  split; [apply completionTarget_expr|].
  intros candidate t Hin Ht.
  rewrite collect_candidates in Hin. apply filter_In in Hin as [_ Hstarts].
  rewrite Ht in *. simpl in *. now apply prefix_then_rest.
Qed.

(** X12: a provider that throws can be taken out of the registry without a
    change of the candidates. *)
Theorem failing_provider_changes_no_candidate (Value : Type)
    (parse : string -> list token) (before after : list (handler Value))
    (h : handler Value) (input : string) (e : string) :
  fn h (fst (completionTarget parse input)) (parse input) (args h) = Thrown e ->
  fst (collectAutocompleteCandidates parse (before ++ h :: after) input)
  = fst (collectAutocompleteCandidates parse (before ++ after) input).
Proof.
  intros Hthrows. rewrite !collect_candidates.
  rewrite !map_app, !concat_app. simpl.
  unfold contribution at 2. now rewrite Hthrows.
Qed.

Lemma failing_provider_changes_no_candidate_witness :
  fst (collectAutocompleteCandidates oneToken
         ([ {| fn_id := 1; fn := fun _ _ _ => Returned ["cd"];
               args := @nil unit |} ]
          ++ {| fn_id := 2; fn := fun _ _ _ => Thrown "boom"; args := [] |}
          :: [ {| fn_id := 3; fn := fun _ _ _ => Returned ["cat"];
                  args := [] |} ])
         "c")
  = fst (collectAutocompleteCandidates oneToken
           ([ {| fn_id := 1; fn := fun _ _ _ => Returned ["cd"];
                 args := @nil unit |} ]
            ++ [ {| fn_id := 3; fn := fun _ _ _ => Returned ["cat"];
                    args := [] |} ])
           "c").
Proof.
  apply (failing_provider_changes_no_candidate unit oneToken _ _ _ "c" "boom").
  reflexivity.
Defined.

(* ===================================================================== *)
(** * More on the shared fragment *)
(* ===================================================================== *)

(** A loop that ends with the old fragment met a candidate that does not
    start with the extended fragment. *)
Lemma sharedLoop_old (oldFragment fragment : string) (candidates : list string) :
  sharedLoop oldFragment fragment candidates = ReturnOld ->
  exists c, In c candidates /\ startsWith c fragment = false.
Proof.
  induction candidates as [|x candidates IH]; simpl; [discriminate|].
  destruct (startsWith x oldFragment); simpl; [|discriminate].
  destruct (startsWith x fragment) eqn:Hx; simpl.
  - intros H. destruct (IH H) as (c & Hin & Hc). exists c. auto.
  - intros _. exists x. auto.
Qed.

Lemma startsWith_refl (s : string) : startsWith s s = true.
Proof.
  unfold startsWith. induction s as [|c s IH]; simpl; [reflexivity|].
  destruct (ascii_dec c c); [exact IH | contradiction].
Qed.

Lemma startsWith_extend (fragment c0 : string) :
  startsWith (extend fragment c0) fragment = true.
Proof. apply prefix_append. Qed.

Lemma getSharedFragment_common_prefix (fragment : string)
    (candidates : list string) :
  forall c0,
    List.hd_error candidates = Some c0 ->
    (forall c, In c candidates -> startsWith c fragment = true) ->
    exists r,
      getSharedFragment fragment candidates = Fragment r
      /\ startsWith r fragment = true
      /\ (forall c, In c candidates -> startsWith c r = true)
      /\ (len c0 <= len r
          \/ exists c, In c candidates /\ startsWith c (extend r c0) = false).
Proof.
  funelim (getSharedFragment fragment candidates); intros c1 Hhd Hall;
    try discriminate; injection Hhd as <-.
  - exists fragment. repeat split; auto.
    + apply startsWith_refl.
    + left. lia.
  - match goal with
    | Hnull : sharedLoop _ _ _ = ReturnNull |- _ =>
        apply sharedLoop_null in Hnull as (c & Hin & Hc)
    end.
    rewrite (Hall c Hin) in Hc. discriminate.
  - exists fragment. repeat split; auto.
    + apply startsWith_refl.
    + right.
      match goal with
      | Hold : sharedLoop _ _ _ = ReturnOld |- _ =>
          now apply sharedLoop_old in Hold
      end.
  - match goal with
    | Hdone : sharedLoop _ _ _ = LoopDone,
      IH : forall _, _ -> _ -> exists _, _ |- _ =>
        destruct (IH c0 eq_refl (sharedLoop_done _ _ _ Hdone))
          as (r & Hr & Hpre & Hcommon & Hmax)
    end.
    exists r. repeat split; auto.
    unfold startsWith in *.
    apply (prefix_trans fragment (extend fragment c0) r);
      [apply prefix_append | exact Hpre].
Qed.

(** X13: when every candidate starts with the fragment, the result is a
    string that starts with the fragment, every candidate starts with it,
    and it cannot be extended: it is as long as the first candidate at
    least, or some candidate does not start with it extended by the next
    character of the first candidate. *)
Theorem getSharedFragment_is_the_longest_common_prefix
    (fragment c0 : string) (rest : list string) :
  (forall c, In c (c0 :: rest) -> startsWith c fragment = true) ->
  exists r,
    getSharedFragment fragment (c0 :: rest) = Fragment r
    /\ startsWith r fragment = true
    /\ (forall c, In c (c0 :: rest) -> startsWith c r = true)
    /\ (len c0 <= len r
        \/ exists c, In c (c0 :: rest) /\ startsWith c (extend r c0) = false).
Proof.
  intros Hall.
  exact (getSharedFragment_common_prefix fragment (c0 :: rest) c0 eq_refl Hall).
Qed.

Lemma getSharedFragment_is_the_longest_common_prefix_witness :
  exists r,
    getSharedFragment "c" ["catalog"; "cat"; "cats"] = Fragment r
    /\ startsWith "cats" r = true.
Proof.
  destruct (getSharedFragment_is_the_longest_common_prefix "c" "catalog"
              ["cat"; "cats"]) as (r & Hr & _ & Hcommon & _).
  - intros c [<- | [<- | [<- | []]]]; reflexivity.
  - exists r. split; [exact Hr|]. apply Hcommon. simpl. auto.
Defined.

(* ===================================================================== *)
(** * More on the wide listing *)
(* ===================================================================== *)

Section PrintWideMore.

Context {Value : Type}.

Lemma itemWidth_fold (items : list string) :
  forall w,
    w <= List.fold_left (fun width item => Z.max width (len item)) items w
    /\ Forall (fun item =>
                 len item
                 <= List.fold_left (fun width item => Z.max width (len item))
                      items w) items.
Proof.
  induction items as [|item items IH]; intros w; simpl.
  - split; [lia | constructor].
  - destruct (IH (Z.max w (len item))) as [Hw Hall]. split; [lia|].
    constructor; [lia | exact Hall].
Qed.

Lemma buildRow_some (itemWidth : Z) (k : nat) :
  forall items rowStr,
    Forall (fun item => len item <= itemWidth) items ->
    exists rowStr' rest,
      buildRow itemWidth k items rowStr = Some (rowStr', rest)
      /\ Forall (fun item => len item <= itemWidth) rest.
Proof.
  induction k as [|k IH]; intros items rowStr Hall; simpl.
  - eauto.
  - destruct items as [|item items]; [eauto|].
    inversion Hall as [|? ? Hitem Hrest]; subst.
    replace (itemWidth - len item <? 0) with false
      by (symmetry; apply Z.ltb_ge; lia).
    now apply IH.
Qed.

Lemma printRows_done (n : nat) (itemWidth : Z) (wideCols : nat) :
  forall items (c : controller Value),
    Forall (fun item => len item <= itemWidth) items ->
    exists out,
      printRows n itemWidth wideCols items c = Done (emit out c)
      /\ List.length out = n.
Proof.
  induction n as [|n IH]; intros items c Hall; simpl.
  - exists []. now rewrite emit_nil.
  - destruct (buildRow_some itemWidth wideCols items "" Hall)
      as (rowStr & rest & -> & Hrest).
    destruct (println_emit rowStr c) as [out1 Hout1].
    assert (Hone : List.length out1 = 1%nat).
    { unfold println, print in Hout1. rewrite write_emit in Hout1.
      apply (f_equal (@term Value)) in Hout1. simpl in Hout1.
      apply app_inv_head in Hout1. now subst out1. }
    rewrite Hout1.
    destruct (IH rest (emit out1 c) Hrest) as (out2 & -> & Hlen).
    exists (out1 ++ out2). rewrite emit_emit, length_app. split; [reflexivity | lia].
Qed.

End PrintWideMore.

(** X14: with a padding that is not negative and a terminal at least as
    wide as the widest item with its padding, [printWide] returns; it only
    writes, one chunk for each of the rows, and there are as many rows as
    the items need at [cols / itemWidth] items a row. *)
Theorem printWide_returns_when_wide_enough (Value : Type)
    (items : list string) (padding : Z) (c : controller Value) :
  items <> [] ->
  0 <= padding ->
  0 < itemWidthOf items padding <= cols (_termSize c) ->
  exists out,
    printWide items padding c = Done (emit out c)
    /\ Z.of_nat (List.length out)
       = - (- Z.of_nat (List.length items)
            / (cols (_termSize c) / itemWidthOf items padding))
    /\ (List.length out <= List.length items)%nat.
Proof.
  intros Hitems Hpad Hwide. unfold printWide.
  destruct items as [|item items]; [contradiction|].
  set (all := item :: items) in *.
  set (w := itemWidthOf all padding) in *.
  assert (Hcols : 1 <= cols (_termSize c) / w).
  { apply Z.div_le_lower_bound; lia. }
  unfold wideColsOf.
  replace (w =? 0) with false by (symmetry; apply Z.eqb_neq; lia).
  unfold wideRowsOf.
  destruct (cols (_termSize c) / w) as [|q|q] eqn:Hq; try lia.
  assert (Hall : Forall (fun x => len x <= w) all).
  { destruct (itemWidth_fold all 0) as [_ Hf].
    eapply Forall_impl; [|exact Hf]. intros x Hx. cbv beta in Hx.
    unfold w, itemWidthOf. lia. }
  destruct (printRows_done
              (Z.to_nat (- (- Z.of_nat (List.length all) / Z.pos q)))
              w (Z.to_nat (Z.pos q)) all c Hall) as (out & Hrun & Hlen).
  exists out. split; [exact Hrun|].
  assert (Hn : 0 < Z.of_nat (List.length all)) by (unfold all; simpl; lia).
  assert (Hrows : 0 <= - (- Z.of_nat (List.length all) / Z.pos q)
                  <= Z.of_nat (List.length all)).
  { pose proof (Z.div_mod (- Z.of_nat (List.length all)) (Z.pos q)
                  ltac:(lia)) as Hdm.
    pose proof (Z.mod_pos_bound (- Z.of_nat (List.length all)) (Z.pos q)
                  ltac:(lia)) as Hb.
    nia. }
  split; lia.
Qed.

Lemma printWide_returns_when_wide_enough_witness :
  exists out,
    printWide ["cat"; "cd"; "cp"] 2
      (create unit (Some {| cols := 10; rows := 24 |}) defaultOptions)
    = Done (emit out
              (create unit (Some {| cols := 10; rows := 24 |}) defaultOptions))
    /\ (List.length out <= 3)%nat.
Proof.
  destruct (printWide_returns_when_wide_enough unit ["cat"; "cd"; "cp"] 2
              (create unit (Some {| cols := 10; rows := 24 |}) defaultOptions))
    as (out & Hrun & _ & Hlen).
  - discriminate.
  - lia.
  - vm_compute. split; [reflexivity | discriminate].
  - exists out. split; [exact Hrun | exact Hlen].
Defined.

(* ===================================================================== *)
(** * More on the session *)
(* ===================================================================== *)

Section SessionMore.

Context {Value : Type}.
Variable parse : string -> list token.

Local Abbreviation controller := (controller Value).

(** The buffer with [data] put in at the offset [k]. *)
Lemma len_spliced (input data : string) (k : Z) :
  0 <= k <= len input ->
  len (substr2 input 0 k ++ data ++ substr input k)%string
  = len input + len data.
Proof.
  intros Hk. rewrite !len_append.
  pose proof (substr_split input k Hk) as Hsplit.
  apply (f_equal len) in Hsplit. rewrite len_append in Hsplit. lia.
Qed.

(** [handleCursorInsert] in one piece. *)
Lemma handleCursorInsert_shape (data : string) (c : controller) :
  cursorInRange c ->
  exists out,
    handleCursorInsert data c
    = set_input
        (substr2 (_input c) 0 (_cursor c) ++ data
         ++ substr (_input c) (_cursor c))%string
        (set_cursor (_cursor c + len data) (emit out c)).
Proof.
  intros Hc. unfold handleCursorInsert.
  match goal with
  | |- context [setInput ?s ?b ?c0] =>
      destruct (setInput_shape s b c0) as [out ->]
  end.
  exists out. cbn [_cursor set_cursor].
  rewrite len_spliced by exact Hc.
  pose proof (len_nonneg (_input c)). pose proof (len_nonneg data).
  unfold cursorInRange in Hc. rewrite Z.min_l by lia. reflexivity.
Qed.

(** A visible character is inserted. *)
Lemma handleTermData_visible (ch : ascii) (c : controller) :
  _active c = true ->
  _activeCharPrompt c = None ->
  (32 <= nat_of_ascii ch)%nat ->
  nat_of_ascii ch <> 127%nat ->
  handleTermData parse (str1 ch) c = Done (handleCursorInsert (str1 ch) c).
Proof.
  intros Hactive Hchar Hlow Hdel.
  unfold handleTermData, handleData. rewrite Hactive, Hchar. simpl.
  replace (Z.of_nat (nat_of_ascii ch) =? 27) with false
    by (symmetry; apply Z.eqb_neq; lia).
  replace (Z.of_nat (nat_of_ascii ch) <? 32) with false
    by (symmetry; apply Z.ltb_ge; lia).
  replace (Z.of_nat (nat_of_ascii ch) =? 127) with false
    by (symmetry; apply Z.eqb_neq; lia).
  reflexivity.
Qed.

Lemma handleTermData_backspace (c : controller) :
  _active c = true ->
  _activeCharPrompt c = None ->
  handleTermData parse (str1 DEL) c = Done (handleCursorErase true c).
Proof.
  intros Hactive Hchar.
  unfold handleTermData, handleData. rewrite Hactive, Hchar. reflexivity.
Qed.

(** Backspace removes the character before the cursor. *)
Lemma backspace_shape (c : controller) :
  0 < _cursor c <= len (_input c) ->
  exists out,
    handleCursorErase true c
    = set_input
        (substr2 (_input c) 0 (_cursor c - 1)
         ++ substr (_input c) (_cursor c))%string
        (set_cursor (_cursor c - 1) (emit out c)).
Proof.
  intros Hc. unfold handleCursorErase.
  replace (_cursor c <=? 0) with false by (symmetry; apply Z.leb_gt; lia).
  destruct (clearInput_emit c) as [out1 ->].
  match goal with
  | |- context [setInput ?s ?b ?c0] =>
      destruct (setInput_shape s b c0) as [out2 ->]
  end.
  exists (out1 ++ out2). cbn [_cursor set_cursor emit].
  assert (Hlen : len (substr2 (_input c) 0 (_cursor c - 1)
                      ++ substr (_input c) (_cursor c))%string
                 = len (_input c) - 1).
  { rewrite len_append, len_substr2_take by lia.
    pose proof (substr_split (_input c) (_cursor c) ltac:(lia)) as Hs.
    apply (f_equal len) in Hs.
    rewrite len_append, len_substr2_take in Hs by lia. lia. }
  rewrite Hlen, Z.min_l by lia.
  unfold set_input, set_cursor, emit. simpl. now rewrite <- app_assoc.
Qed.

End SessionMore.

(** X15: what is typed is put in at the cursor: the buffer becomes the text
    before the cursor, the data, and the text from the cursor on; the cursor
    moves past the data; the buffer grows by the length of the data. *)
Theorem insert_puts_data_at_the_cursor (Value : Type) (data : string)
    (c : controller Value) :
  cursorInRange c ->
  _input (handleCursorInsert data c)
  = (substr2 (_input c) 0 (_cursor c) ++ data
     ++ substr (_input c) (_cursor c))%string
  /\ _cursor (handleCursorInsert data c) = _cursor c + len data
  /\ len (_input (handleCursorInsert data c)) = len (_input c) + len data.
Proof.
  intros Hc. destruct (handleCursorInsert_shape data c Hc) as [out ->].
  cbn [_input _cursor set_input set_cursor].
  split; [reflexivity|]. split; [reflexivity|]. now apply len_spliced.
Qed.

Lemma insert_puts_data_at_the_cursor_witness :
  _input
    (handleCursorInsert "XY"
       (set_cursor 2
          (set_input "abcd"
             (read "$ " "> "
                (create unit (Some {| cols := 80; rows := 24 |})
                   defaultOptions)))))
  = ("ab" ++ "XY" ++ "cd")%string.
Proof.
  destruct (insert_puts_data_at_the_cursor unit "XY"
              (set_cursor 2
                 (set_input "abcd"
                    (read "$ " "> "
                       (create unit (Some {| cols := 80; rows := 24 |})
                          defaultOptions))))) as (Hinput & _).
  - unfold cursorInRange. vm_compute. split; discriminate.
  - rewrite Hinput. vm_compute. reflexivity.
Defined.

(** X16: a visible character that is typed and then erased with the
    backspace key leaves the buffer and the cursor as they were. *)
Theorem backspace_undoes_a_typed_character (Value : Type)
    (parse : string -> list token) (ch : ascii) (c : controller Value) :
  _active c = true ->
  _activeCharPrompt c = None ->
  cursorInRange c ->
  (32 <= nat_of_ascii ch)%nat ->
  nat_of_ascii ch <> 127%nat ->
  exists c',
    feed parse [str1 ch; str1 DEL] c = Done c'
    /\ _input c' = _input c
    /\ _cursor c' = _cursor c.
Proof.
  intros Hactive Hchar Hc Hlow Hdel.
  cbn [feed]. rewrite (handleTermData_visible parse ch c) by assumption.
  cbn [bind].
  destruct (handleCursorInsert_shape (str1 ch) c Hc) as [out Hins].
  rewrite handleTermData_backspace by (rewrite Hins; assumption).
  cbn [bind]. eexists. split; [reflexivity|].
  assert (Hone : len (str1 ch) = 1) by reflexivity.
  pose proof (len_nonneg (_input c)) as Hlen.
  unfold cursorInRange in Hc.
  destruct (backspace_shape (handleCursorInsert (str1 ch) c)) as [out2 ->].
  { rewrite Hins. cbn [_input _cursor set_input set_cursor].
    rewrite len_spliced by exact Hc. lia. }
  rewrite Hins. cbn [_input _cursor set_input set_cursor emit].
  rewrite Hone. replace (_cursor c + 1 - 1) with (_cursor c) by lia.
  split; [|reflexivity].
  set (a := substr2 (_input c) 0 (_cursor c)).
  set (b := substr (_input c) (_cursor c)).
  assert (Ha : len a = _cursor c) by (apply len_substr2_take; exact Hc).
  rewrite <- Ha at 1. rewrite substr2_append.
  replace (_cursor c + 1) with (len (a ++ str1 ch)%string)
    by (rewrite len_append; lia).
  replace (a ++ str1 ch ++ b)%string with ((a ++ str1 ch) ++ b)%string
    by (clear; induction a; simpl; [reflexivity | now f_equal]).
  rewrite substr_append. apply substr_split. exact Hc.
Qed.

Lemma backspace_undoes_a_typed_character_witness :
  exists c',
    feed oneToken [str1 "x"%char; str1 DEL]
      (set_cursor 1
         (set_input "ab"
            (read "$ " "> "
               (create unit (Some {| cols := 80; rows := 24 |})
                  defaultOptions))))
    = Done c'
    /\ _input c' = "ab".
Proof.
  destruct (backspace_undoes_a_typed_character unit oneToken "x"%char
              (set_cursor 1
                 (set_input "ab"
                    (read "$ " "> "
                       (create unit (Some {| cols := 80; rows := 24 |})
                          defaultOptions)))))
    as (c' & Hrun & Hinput & _);
    try (vm_compute; reflexivity).
  - unfold cursorInRange. vm_compute. split; discriminate.
  - vm_compute. lia.
  - vm_compute. discriminate.
  - exists c'. split; [exact Hrun | exact Hinput].
Defined.

Section SessionEvents.

Context {Value : Type}.
Variable parse : string -> list token.

Local Abbreviation controller := (controller Value).



Lemma removeFirst_absent (id : nat) (l : list (handler Value)) :
  Forall (fun h => fn_id h <> id) l -> removeFirst id l = l.
Proof.
  induction 1 as [|h l Hh _ IH]; simpl; [reflexivity|].
  destruct (Nat.eqb_spec (fn_id h) id); [contradiction | now rewrite IH].
Qed.

Lemma removeFirst_last (h : handler Value) (l : list (handler Value)) :
  Forall (fun h' => fn_id h' <> fn_id h) l ->
  removeFirst (fn_id h) (l ++ [h]) = l.
Proof.
  induction 1 as [|h' l Hh _ IH]; simpl.
  - now rewrite Nat.eqb_refl.
  - destruct (Nat.eqb_spec (fn_id h') (fn_id h)); [contradiction | now rewrite IH].
Qed.

End SessionEvents.


(** X18: during an active read a pending [readChar] takes the next event,
    whatever it is, and resolves with it: the event edits nothing.  Without
    an active read the event is ignored and the [readChar] stays pending. *)
Theorem readChar_takes_the_next_event (Value : Type)
    (parse : string -> list token) (prompt_ data : string)
    (c : controller Value) :
  (_active c = true ->
   exists c',
     handleTermData parse data (readChar prompt_ c) = Done c'
     /\ settled c' = settled c ++ [CharResolved data]
     /\ term c' = term c ++ [prompt_; CRLF]
     /\ _activeCharPrompt c' = None
     /\ _input c' = _input c
     /\ _cursor c' = _cursor c
     /\ _activePrompt c' = _activePrompt c
     /\ history c' = history c)
  /\ (_active c = false ->
      handleTermData parse data (readChar prompt_ c)
      = Done (readChar prompt_ c)).
Proof.
  split; intros Hactive; unfold handleTermData, readChar; simpl;
    rewrite Hactive; simpl; [|reflexivity].
  eexists. split; [reflexivity|]. simpl.
  rewrite <- app_assoc. simpl. auto 10.
Qed.

(** X19: Enter on a buffer that is judged incomplete puts a line feed in at
    the cursor, which need not be the end of the buffer, and the read stays
    pending: nothing is settled and nothing goes to the history. *)
Theorem enter_continues_an_incomplete_line (Value : Type)
    (parse : string -> list token) (c : controller Value) :
  _active c = true ->
  _activeCharPrompt c = None ->
  this_isIncompleteInput c (_input c) = true ->
  cursorInRange c ->
  exists c',
    handleTermData parse (str1 CR) c = Done c'
    /\ _input c'
       = (substr2 (_input c) 0 (_cursor c) ++ str1 LF
          ++ substr (_input c) (_cursor c))%string
    /\ _cursor c' = _cursor c + 1
    /\ _active c' = true
    /\ _activePrompt c' = _activePrompt c
    /\ settled c' = settled c
    /\ history c' = history c.
Proof.
  intros Hactive Hchar Hincomplete Hc.
  exists (handleCursorInsert (str1 LF) c). split.
  - unfold handleTermData, handleData. rewrite Hactive, Hchar. simpl.
    unfold handleControl. simpl. now rewrite Hincomplete.
  - destruct (handleCursorInsert_shape (str1 LF) c Hc) as [out ->].
    simpl. auto 10.
Qed.

Lemma enter_continues_an_incomplete_line_witness :
  exists c',
    handleTermData oneToken (str1 CR)
      (set_cursor 2
         (set_input "ls |"
            (read "$ " "> "
               (create unit (Some {| cols := 80; rows := 24 |})
                  defaultOptions))))
    = Done c'
    /\ _input c' = ("ls" ++ str1 LF ++ " |")%string.
Proof.
  destruct (enter_continues_an_incomplete_line unit oneToken
              (set_cursor 2
                 (set_input "ls |"
                    (read "$ " "> "
                       (create unit (Some {| cols := 80; rows := 24 |})
                          defaultOptions)))))
    as (c' & Hrun & Hinput & _);
    try (vm_compute; reflexivity).
  - unfold cursorInRange. vm_compute. split; discriminate.
  - exists c'. split; [exact Hrun|]. rewrite Hinput. vm_compute. reflexivity.
Defined.

(** X20: Control-C empties the buffer, writes [^C], a line break and the
    prompt, and rewinds the history; the read stays pending: its promise is
    not settled and the session stays active. *)
Theorem interrupt_keeps_the_read_pending (Value : Type)
    (parse : string -> list token) (c : controller Value) :
  _active c = true ->
  _activeCharPrompt c = None ->
  exists c',
    handleTermData parse (str1 ETX) c = Done c'
    /\ _input c' = ""
    /\ _cursor c' = 0
    /\ _active c' = true
    /\ _activePrompt c' = _activePrompt c
    /\ settled c' = settled c
    /\ HistoryController.entries (history c')
       = HistoryController.entries (history c)
    /\ HistoryController.cursor (history c')
       = Z.of_nat (List.length (HistoryController.entries (history c)))
    /\ List.last (term c') ""
       = ("^C" ++ CRLF
          ++ match _activePrompt c with
             | Some p => prompt p
             | None => ""
             end)%string.
Proof.
  intros Hactive Hchar.
  unfold handleTermData, handleData. rewrite Hactive, Hchar. simpl.
  unfold handleControl. simpl String.eqb. cbv iota.
  destruct (setCursor_shape (len (_input c)) c) as [out ->].
  eexists. split; [reflexivity|]. simpl.
  rewrite last_last. auto 10.
Qed.

Lemma interrupt_keeps_the_read_pending_witness :
  exists c',
    handleTermData oneToken (str1 ETX)
      (set_cursor 2
         (set_input "ls"
            (read "$ " "> "
               (create unit (Some {| cols := 80; rows := 24 |})
                  defaultOptions))))
    = Done c'
    /\ _input c' = ""
    /\ settled c' = [].
Proof.
  destruct (interrupt_keeps_the_read_pending unit oneToken
              (set_cursor 2
                 (set_input "ls"
                    (read "$ " "> "
                       (create unit (Some {| cols := 80; rows := 24 |})
                          defaultOptions)))))
    as (c' & Hrun & Hinput & _ & _ & _ & Hsettled & _);
    try (vm_compute; reflexivity).
  exists c'. split; [exact Hrun|]. split; [exact Hinput|].
  rewrite Hsettled. vm_compute. reflexivity.
Defined.

(** X21: a handler that was added is taken out again by its function, when
    no handler with that function was registered before; taking out a
    function that is not registered changes nothing. *)
Theorem remove_undoes_add (Value : Type) (h : handler Value) (id : nat)
    (c : controller Value) :
  (Forall (fun h' => fn_id h' <> fn_id h) (_autocompleteHandlers c) ->
   removeAutocompleteHandler (fn_id h) (addAutocompleteHandler h c) = c)
  /\ (Forall (fun h' => fn_id h' <> id) (_autocompleteHandlers c) ->
      removeAutocompleteHandler id c = c).
Proof.
  split; intros Hfresh;
    unfold removeAutocompleteHandler, addAutocompleteHandler; simpl.
  - rewrite removeFirst_last by assumption. now destruct c.
  - rewrite removeFirst_absent by assumption. now destruct c.
Qed.

Section SessionMoves.

Context {Value : Type}.
Variable parse : string -> list token.

Local Abbreviation controller := (controller Value).

Lemma writeTimes_none (from : Z) (data : string) (c : controller) :
  writeTimes from from data c = c.
Proof. unfold writeTimes. now rewrite Z.sub_diag. Qed.

(** A cursor that is asked to stay where it is writes nothing. *)
Lemma setCursor_same (c : controller) :
  cursorInRange c -> setCursor (_cursor c) c = c.
Proof.
  intros [Hlow Hhigh]. unfold setCursor.
  replace (_cursor c <? 0) with false by (symmetry; apply Z.ltb_ge; lia).
  replace (_cursor c >? len (_input c)) with false
    by (symmetry; rewrite Z.gtb_ltb; apply Z.ltb_ge; lia).
  cbv zeta.
  rewrite !Z.gtb_ltb, !Z.ltb_irrefl, !writeTimes_none. now destruct c.
Qed.


Lemma append_assoc (a b c : string) :
  ((a ++ b) ++ c)%string = (a ++ b ++ c)%string.
Proof. induction a as [|x a IH]; simpl; [reflexivity | now f_equal]. Qed.



Lemma closestLeftBoundary_range (input : string) (offset : Z) :
  0 <= offset -> 0 <= closestLeftBoundary input offset <= offset.
Proof.
  intros Ho. unfold closestLeftBoundary, wordBoundaries.
  destruct (List.find _ _) as [l|] eqn:Hl; [|lia].
  apply find_some in Hl as [Hin Hp]. apply in_rev in Hin.
  apply Z.ltb_lt in Hp.
  pose proof (wordBoundaries_from_lower true input 0 false) as Hlow.
  rewrite Forall_forall in Hlow. specialize (Hlow _ Hin). lia.
Qed.

End SessionMoves.

(** X22: the moves that cannot go further write nothing and change nothing:
    the left arrow at offset 0, the right arrow at the end of the buffer,
    the backspace key at offset 0, and a cursor that is set to where it
    is. *)
Theorem saturated_moves_do_nothing (Value : Type) (c : controller Value) :
  cursorInRange c ->
  setCursor (_cursor c) c = c
  /\ (_cursor c = 0 -> handleCursorMove (-1) c = c)
  /\ (_cursor c = len (_input c) -> handleCursorMove 1 c = c)
  /\ (_cursor c = 0 -> handleCursorErase true c = c).
Proof.
  intros Hc. split; [now apply setCursor_same|].
  pose proof (len_nonneg (_input c)) as Hlen.
  split; [|split]; intros Hat; unfold handleCursorMove, handleCursorErase.
  - change (-1 >? 0) with false. change (-1 <? 0) with true. cbv iota zeta.
    replace (_cursor c + Z.max (-1) (- _cursor c)) with (_cursor c) by lia.
    now apply setCursor_same.
  - change (1 >? 0) with true. cbv iota zeta.
    replace (_cursor c + Z.min 1 (len (_input c) - _cursor c))
      with (_cursor c) by lia.
    now apply setCursor_same.
  - now rewrite Hat.
Qed.

Lemma saturated_moves_do_nothing_witness :
  handleCursorMove 1
    (set_cursor 2
       (set_input "ls"
          (read "$ " "> "
             (create unit (Some {| cols := 80; rows := 24 |}) defaultOptions))))
  = set_cursor 2
      (set_input "ls"
         (read "$ " "> "
            (create unit (Some {| cols := 80; rows := 24 |}) defaultOptions))).
Proof.
  destruct (saturated_moves_do_nothing unit
              (set_cursor 2
                 (set_input "ls"
                    (read "$ " "> "
                       (create unit (Some {| cols := 80; rows := 24 |})
                          defaultOptions)))))
    as (_ & _ & Hright & _).
  - unfold cursorInRange. vm_compute. split; discriminate.
  - apply Hright. vm_compute. reflexivity.
Defined.


(** X24: Alt-Backspace removes the characters between the closest left
    boundary and the cursor, and nothing else, and leaves the cursor at the
    boundary. *)
Theorem alt_backspace_erases_to_the_boundary (Value : Type)
    (c : controller Value) :
  cursorInRange c ->
  _input (handleEscape (str1 DEL) c)
  = (substr2 (_input c) 0 (closestLeftBoundary (_input c) (_cursor c))
     ++ substr (_input c) (_cursor c))%string
  /\ _cursor (handleEscape (str1 DEL) c)
     = closestLeftBoundary (_input c) (_cursor c)
  /\ len (_input (handleEscape (str1 DEL) c))
     = len (_input c)
       - (_cursor c - closestLeftBoundary (_input c) (_cursor c)).
Proof.
  intros [Hlow Hhigh]. unfold handleEscape. simpl String.eqb. cbv iota.
  pose proof (closestLeftBoundary_range (_input c) (_cursor c) Hlow) as Hofs.
  set (ofs := closestLeftBoundary (_input c) (_cursor c)) in *.
  assert (Hlen : len (substr2 (_input c) 0 ofs ++ substr (_input c) (_cursor c))%string
                 = len (_input c) - (_cursor c - ofs)).
  { rewrite len_append, len_substr2_take by lia.
    pose proof (substr_split (_input c) (_cursor c) ltac:(lia)) as Hs.
    apply (f_equal len) in Hs.
    rewrite len_append, len_substr2_take in Hs by lia. lia. }
  match goal with
  | |- context [setInput ?s ?b ?c0] =>
      destruct (setInput_shape s b c0) as [out1 ->]
  end.
  match goal with
  | |- context [setCursor ?n ?c0] =>
      destruct (setCursor_shape n c0) as [out2 ->]
  end.
  cbn [_input _cursor set_input set_cursor emit].
  split; [reflexivity|]. split; [rewrite Hlen; lia | exact Hlen].
Qed.

Lemma alt_backspace_erases_to_the_boundary_witness :
  _input
    (handleEscape (str1 DEL)
       (set_cursor 6
          (set_input "ls abc def"
             (read "$ " "> "
                (create unit (Some {| cols := 80; rows := 24 |})
                   defaultOptions)))))
  = "ls  def".
Proof.
  destruct (alt_backspace_erases_to_the_boundary unit
              (set_cursor 6
                 (set_input "ls abc def"
                    (read "$ " "> "
                       (create unit (Some {| cols := 80; rows := 24 |})
                          defaultOptions))))) as (Hinput & _).
  - unfold cursorInRange. vm_compute. split; discriminate.
  - rewrite Hinput. vm_compute. reflexivity.
Defined.

Section SessionHistory.

Context {Value : Type}.
Variable parse : string -> list token.

Local Abbreviation controller := (controller Value).

Lemma handleReadComplete_history (c : controller) :
  history (handleReadComplete c)
  = HistoryController.push (_input c) (history c)
  /\ _activeCharPrompt (handleReadComplete c) = _activeCharPrompt c.
Proof. unfold handleReadComplete. destruct (isSome _); auto. Qed.

Lemma handleTermData_enter (c : controller) :
  _active c = true ->
  _activeCharPrompt c = None ->
  this_isIncompleteInput c (_input c) = false ->
  handleTermData parse (str1 CR) c = Done (handleReadComplete c).
Proof.
  intros Hactive Hchar Hcomplete.
  unfold handleTermData, handleData. rewrite Hactive, Hchar.
  change (negb true) with false. cbv iota.
  change (len (str1 CR) >? 3) with false. cbv iota.
  change (charCodeAt0 (str1 CR)) with (Some 13).
  cbv iota beta. change (13 =? 27) with false. change (13 <? 32) with true.
  cbv iota. unfold handleControl.
  change (String.eqb (str1 CR) (str1 CR)) with true. cbv iota.
  now rewrite Hcomplete.
Qed.

Lemma substr_after_escape (sequence : string) :
  substr (String ESC sequence) 1 = sequence.
Proof.
  unfold substr, substr2. change (1 <? 0) with false. cbv iota.
  pose proof (len_nonneg sequence) as Hs.
  assert (Hl : len (String ESC sequence) = len sequence + 1)
    by (unfold len; simpl String.length; lia).
  rewrite Hl. rewrite (Z.min_l 1) by lia.
  replace (Z.min (Z.max (len sequence + 1) 0) (len sequence + 1))
    with (len sequence + 1) by lia.
  replace (Z.min (1 + (len sequence + 1)) (len sequence + 1))
    with (len sequence + 1) by lia.
  replace (Z.to_nat (len sequence + 1 - 1)) with (String.length sequence)
    by (unfold len; lia).
  change (Z.to_nat 1) with 1%nat. simpl String.substring.
  apply substring_whole.
Qed.

Lemma handleTermData_escape (sequence : string) (c : controller) :
  _active c = true ->
  _activeCharPrompt c = None ->
  len sequence <= 2 ->
  handleTermData parse (String ESC sequence) c
  = Done (handleEscape sequence c).
Proof.
  intros Hactive Hchar Hlen.
  unfold handleTermData, handleData. rewrite Hactive, Hchar.
  change (negb true) with false. cbv iota.
  replace (len (String ESC sequence) >? 3) with false
    by (symmetry; rewrite Z.gtb_ltb; apply Z.ltb_ge;
        unfold len in *; simpl String.length; lia).
  cbn [andb]. change (charCodeAt0 (String ESC sequence)) with (Some 27).
  cbv iota beta. change (27 =? 27) with true. cbv iota.
  now rewrite substr_after_escape.
Qed.

End SessionHistory.

(** X25: a line that is entered is stored in the history and recalled by the
    up arrow of the next read, when the line is not blank, differs from the
    newest entry and the ring has room. *)
Theorem up_arrow_recalls_the_entered_line (Value : Type)
    (parse : string -> list token) (c : controller Value)
    (prompt_ continuation : string) :
  _active c = true ->
  _activeCharPrompt c = None ->
  this_isIncompleteInput c (_input c) = false ->
  trim (_input c) <> "" ->
  HistoryController.lastEntry (history c) <> Some (_input c) ->
  Z.of_nat (List.length (HistoryController.entries (history c)))
    < HistoryController.size (history c) ->
  exists c1 c3,
    handleTermData parse (str1 CR) c = Done c1
    /\ handleTermData parse (String ESC "[A") (read prompt_ continuation c1)
       = Done c3
    /\ _input c3 = _input c
    /\ _cursor c3 = len (_input c).
Proof.
  intros Hactive Hchar Hcomplete Hblank Hlast Hroom.
  destruct (handleReadComplete_history c) as [Hhist Hchar1].
  exists (handleReadComplete c).
  eexists. split; [now apply handleTermData_enter|].
  split.
  { apply handleTermData_escape; [reflexivity | | unfold len; simpl; lia].
    unfold read. cbn [_activeCharPrompt set_active set_cursor set_input
                      set_activePrompt write]. congruence. }
  unfold handleEscape. change (String.eqb "[A" "[A") with true. cbv iota.
  assert (Hh : history (read prompt_ continuation (handleReadComplete c))
               = HistoryController.push (_input c) (history c))
    by (rewrite <- Hhist; reflexivity).
  rewrite Hh, push_appends by assumption.
  unfold HistoryController.getPrevious.
  cbn [HistoryController.cursor HistoryController.entries
       HistoryController.size].
  replace (Z.max 0
             (Z.of_nat (List.length
                          (HistoryController.entries (history c) ++ [_input c]))
              - 1))
    with (Z.of_nat (List.length
                      (HistoryController.entries (history c) ++ [_input c]))
          - 1)
    by (rewrite length_app; simpl; lia).
  rewrite at_index_last.
  assert (Htruthy : truthy (_input c) = true).
  { unfold truthy. destruct (String.eqb_spec (_input c) "") as [He|]; [|reflexivity].
    rewrite He in Hblank. now contradiction Hblank. }
  rewrite Htruthy.
  match goal with
  | |- context [setInput ?s ?b ?c0] =>
      destruct (setInput_shape s b c0) as [out1 ->]
  end.
  match goal with
  | |- context [setCursor ?n ?c0] =>
      destruct (setCursor_shape n c0) as [out2 ->]
  end.
  cbn [_input _cursor set_input set_cursor emit].
  pose proof (len_nonneg (_input c)). split; [reflexivity | lia].
Qed.

Lemma up_arrow_recalls_the_entered_line_witness :
  exists c1 c3,
    handleTermData oneToken (str1 CR)
      (set_cursor 2
         (set_input "ls"
            (read "$ " "> "
               (create unit (Some {| cols := 80; rows := 24 |})
                  defaultOptions))))
    = Done c1
    /\ handleTermData oneToken (String ESC "[A") (read "$ " "> " c1) = Done c3
    /\ _input c3 = "ls".
Proof.
  destruct (up_arrow_recalls_the_entered_line unit oneToken
              (set_cursor 2
                 (set_input "ls"
                    (read "$ " "> "
                       (create unit (Some {| cols := 80; rows := 24 |})
                          defaultOptions))))
              "$ " "> ")
    as (c1 & c3 & Hrun1 & Hrun3 & Hinput & _).
  - vm_compute. reflexivity.
  - vm_compute. reflexivity.
  - vm_compute. reflexivity.
  - vm_compute. discriminate.
  - vm_compute. discriminate.
  - vm_compute. reflexivity.
  - exists c1, c3. split; [exact Hrun1|]. split; [exact Hrun3|].
    rewrite Hinput. reflexivity.
Defined.

Section SessionErase.

Context {Value : Type}.
Variable parse : string -> list token.

Local Abbreviation controller := (controller Value).

Lemma substring_none (s : string) : forall n, String.substring n 0 s = "".
Proof.
  induction s as [|x s IH]; intros n; destruct n; simpl; auto.
Qed.

Lemma substr_past_the_end (s : string) (k : Z) :
  len s <= k -> substr s k = "".
Proof.
  intros Hk. pose proof (len_nonneg s). unfold substr, substr2.
  replace (k <? 0) with false by (symmetry; apply Z.ltb_ge; lia).
  replace (Z.to_nat (Z.min (Z.min k (len s) + Z.min (Z.max (len s) 0) (len s))
                       (len s) - Z.min k (len s))) with O by lia.
  apply substring_none.
Qed.

Lemma append_empty (s : string) : (s ++ "")%string = s.
Proof. induction s as [|x s IH]; simpl; [reflexivity | now f_equal]. Qed.

Lemma substr2_whole (s : string) : substr2 s 0 (len s) = s.
Proof.
  rewrite substr2_take by (pose proof (len_nonneg s); lia).
  unfold len. rewrite Nat2Z.id. apply substring_whole.
Qed.

Lemma len_substr_drop (s : string) (k : Z) :
  0 <= k <= len s -> len (substr s k) = len s - k.
Proof.
  intros Hk. pose proof (substr_split s k Hk) as Hs.
  apply (f_equal len) in Hs.
  rewrite len_append, len_substr2_take in Hs by exact Hk. lia.
Qed.

End SessionErase.

(** X26: the down arrow at the newest entry, or past it, empties the buffer:
    what was typed is not brought back. *)
Theorem down_arrow_past_the_newest_entry_empties_the_buffer (Value : Type)
    (c : controller Value) :
  Z.of_nat (List.length (HistoryController.entries (history c)))
    <= HistoryController.cursor (history c) + 1 ->
  _input (handleEscape "[B" c) = ""
  /\ _cursor (handleEscape "[B" c) = 0
  /\ HistoryController.cursor (history (handleEscape "[B" c))
     = Z.of_nat (List.length (HistoryController.entries (history c))).
Proof.
  intros Hend. unfold handleEscape.
  change (String.eqb "[B" "[A") with false.
  change (String.eqb "[B" "[B") with true. cbv iota.
  unfold HistoryController.getNext.
  rewrite Z.min_l by lia.
  rewrite HistoryMore.at_index_none by lia.
  match goal with
  | |- context [setInput ?s ?b ?c0] =>
      destruct (setInput_shape s b c0) as [out1 ->]
  end.
  match goal with
  | |- context [setCursor ?n ?c0] =>
      destruct (setCursor_shape n c0) as [out2 ->]
  end.
  cbn [_input _cursor set_input set_cursor emit history set_history
       HistoryController.cursor].
  auto.
Qed.

Lemma down_arrow_past_the_newest_entry_empties_the_buffer_witness :
  _input
    (handleEscape "[B"
       (set_cursor 5
          (set_input "typed"
             (read "$ " "> "
                (create unit (Some {| cols := 80; rows := 24 |})
                   defaultOptions)))))
  = "".
Proof.
  apply (down_arrow_past_the_newest_entry_empties_the_buffer unit
           (set_cursor 5
              (set_input "typed"
                 (read "$ " "> "
                    (create unit (Some {| cols := 80; rows := 24 |})
                       defaultOptions))))).
  vm_compute. discriminate.
Defined.

(** X27: the Delete key removes the character at the cursor and leaves the
    cursor where it is; at the end of the buffer it removes nothing. *)
Theorem delete_removes_the_character_at_the_cursor (Value : Type)
    (c : controller Value) :
  cursorInRange c ->
  _input (handleCursorErase false c)
  = (substr2 (_input c) 0 (_cursor c)
     ++ substr (_input c) (_cursor c + 1))%string
  /\ _cursor (handleCursorErase false c) = _cursor c
  /\ (_cursor c < len (_input c) ->
      len (_input (handleCursorErase false c)) = len (_input c) - 1)
  /\ (_cursor c = len (_input c) ->
      _input (handleCursorErase false c) = _input c).
Proof.
  intros [Hlow Hhigh]. unfold handleCursorErase.
  match goal with
  | |- context [setInput ?s ?b ?c0] =>
      destruct (setInput_shape s b c0) as [out ->]
  end.
  cbn [_input _cursor set_input set_cursor emit].
  split; [reflexivity|].
  split; [|split].
  - rewrite len_append, len_substr2_take by lia.
    pose proof (len_nonneg (substr (_input c) (_cursor c + 1))). lia.
  - intros Hlt. rewrite len_append, len_substr2_take, len_substr_drop by lia.
    lia.
  - intros Heq. rewrite Heq. rewrite substr2_whole.
    rewrite substr_past_the_end by lia. apply append_empty.
Qed.

Lemma delete_removes_the_character_at_the_cursor_witness :
  _input
    (handleCursorErase false
       (set_cursor 1
          (set_input "abc"
             (read "$ " "> "
                (create unit (Some {| cols := 80; rows := 24 |})
                   defaultOptions)))))
  = "ac".
Proof.
  destruct (delete_removes_the_character_at_the_cursor unit
              (set_cursor 1
                 (set_input "abc"
                    (read "$ " "> "
                       (create unit (Some {| cols := 80; rows := 24 |})
                          defaultOptions))))) as (Hinput & _).
  - unfold cursorInRange. vm_compute. split; discriminate.
  - rewrite Hinput. vm_compute. reflexivity.
Defined.

Section SessionTyping.

Context {Value : Type}.
Variable parse : string -> list token.

Local Abbreviation controller := (controller Value).

Lemma visible_is_no_line_break (x : ascii) :
  (32 <= nat_of_ascii x)%nat ->
  Ascii.eqb x CR = false /\ Ascii.eqb x LF = false.
Proof.
  intros Hx. split; apply Ascii.eqb_neq; intros ->; vm_compute in Hx; lia.
Qed.

Lemma collapseBreaks_visible (by_ data : string) (inRun : bool) :
  Forall (fun x => (32 <= nat_of_ascii x)%nat /\ nat_of_ascii x <> 127%nat)
    (list_ascii_of_string data) ->
  collapseBreaks by_ data inRun = data.
Proof.
  revert inRun. induction data as [|x data IH]; intros inRun Hv; [reflexivity|].
  simpl in Hv. inversion Hv as [|? ? [Hx _] Hrest]; subst.
  destruct (visible_is_no_line_break x Hx) as [Hcr Hlf].
  simpl. rewrite Hcr, Hlf. simpl. now rewrite IH.
Qed.

Lemma handleData_visible (ch : ascii) (c : controller) :
  _active c = true ->
  (32 <= nat_of_ascii ch)%nat ->
  nat_of_ascii ch <> 127%nat ->
  handleData parse (str1 ch) c = Done (handleCursorInsert (str1 ch) c).
Proof.
  intros Hactive Hlow Hdel. unfold handleData. rewrite Hactive. simpl.
  replace (Z.of_nat (nat_of_ascii ch) =? 27) with false
    by (symmetry; apply Z.eqb_neq; lia).
  replace (Z.of_nat (nat_of_ascii ch) <? 32) with false
    by (symmetry; apply Z.ltb_ge; lia).
  replace (Z.of_nat (nat_of_ascii ch) =? 127) with false
    by (symmetry; apply Z.eqb_neq; lia).
  reflexivity.
Qed.

(** Visible characters, typed one after the other or handled as the
    characters of a paste, end up at the cursor in their order. *)
Lemma typing_visible_text (data : string) :
  forall c : controller,
    _active c = true ->
    _activeCharPrompt c = None ->
    cursorInRange c ->
    Forall (fun x => (32 <= nat_of_ascii x)%nat /\ nat_of_ascii x <> 127%nat)
      (list_ascii_of_string data) ->
    exists c',
      feed parse (chars data) c = Done c'
      /\ forEachData parse (chars data) c = Done c'
      /\ _input c'
         = (substr2 (_input c) 0 (_cursor c) ++ data
            ++ substr (_input c) (_cursor c))%string
      /\ _cursor c' = _cursor c + len data.
Proof.
  induction data as [|x data IH]; intros c Hactive Hchar Hc Hv.
  - exists c. repeat split; try reflexivity.
    + simpl. symmetry. apply substr_split. exact Hc.
    + change (len "") with 0. lia.
  - simpl in Hv. inversion Hv as [|? ? [Hx Hdel] Hrest]; subst.
    destruct (handleCursorInsert_shape (str1 x) c Hc) as [out Hins].
    assert (Hone : len (str1 x) = 1) by reflexivity.
    pose proof (len_nonneg (_input c)) as Hlen.
    destruct (IH (handleCursorInsert (str1 x) c)) as (c' & Hfeed & Heach & Hin & Hcur).
    + rewrite Hins. exact Hactive.
    + rewrite Hins. exact Hchar.
    + rewrite Hins. unfold cursorInRange in *.
      cbn [_input _cursor set_input set_cursor].
      rewrite len_spliced by exact Hc. lia.
    + exact Hrest.
    + exists c'. cbn [chars feed forEachData].
      rewrite (handleTermData_visible parse x c), (handleData_visible x c)
        by assumption.
      cbn [bind]. split; [exact Hfeed|]. split; [exact Heach|].
      rewrite Hin, Hcur, Hins. cbn [_input _cursor set_input set_cursor emit].
      set (a := substr2 (_input c) 0 (_cursor c)).
      set (b := substr (_input c) (_cursor c)).
      assert (Ha : len a = _cursor c) by (apply len_substr2_take; exact Hc).
      assert (Hax : len (a ++ str1 x)%string = _cursor c + len (str1 x))
        by (rewrite len_append; lia).
      split.
      * rewrite <- Hax.
        replace (a ++ str1 x ++ b)%string with ((a ++ str1 x) ++ b)%string
          by apply append_assoc.
        rewrite substr2_append, substr_append.
        rewrite append_assoc. reflexivity.
      * assert (Hs : len (String x data) = len data + 1)
          by (unfold len; simpl String.length; lia).
        lia.
Qed.

End SessionTyping.

(** X28: visible text that is typed key by key is put in at the cursor, in
    its order, and the cursor ends after it; the same text of more than 3
    characters arriving in one event, as a paste, gives the same state. *)
Theorem typed_or_pasted_text_lands_at_the_cursor (Value : Type)
    (parse : string -> list token) (data : string) (c : controller Value) :
  _active c = true ->
  _activeCharPrompt c = None ->
  cursorInRange c ->
  Forall (fun x => (32 <= nat_of_ascii x)%nat /\ nat_of_ascii x <> 127%nat)
    (list_ascii_of_string data) ->
  exists c',
    feed parse (chars data) c = Done c'
    /\ _input c'
       = (substr2 (_input c) 0 (_cursor c) ++ data
          ++ substr (_input c) (_cursor c))%string
    /\ _cursor c' = _cursor c + len data
    /\ (3 < len data -> handleTermData parse data c = Done c').
Proof.
  intros Hactive Hchar Hc Hv.
  destruct (typing_visible_text parse data c Hactive Hchar Hc Hv)
    as (c' & Hfeed & Heach & Hin & Hcur).
  exists c'. split; [exact Hfeed|]. split; [exact Hin|]. split; [exact Hcur|].
  intros Hlong. unfold handleTermData. rewrite Hactive, Hchar.
  change (negb true) with false. cbv iota.
  replace (len data >? 3) with true
    by (symmetry; rewrite Z.gtb_ltb; apply Z.ltb_lt; lia).
  destruct data as [|x data]; [change (len "") with 0 in Hlong; lia|].
  simpl in Hv. inversion Hv as [|? ? [Hx _] _]; subst.
  change (charCodeAt0 (String x data)) with (Some (Z.of_nat (nat_of_ascii x))).
  cbv iota beta.
  replace (Z.of_nat (nat_of_ascii x) =? 27) with false
    by (symmetry; apply Z.eqb_neq; lia).
  cbn [negb andb].
  rewrite collapseBreaks_visible by exact Hv. exact Heach.
Qed.

Lemma typed_or_pasted_text_lands_at_the_cursor_witness :
  exists c',
    handleTermData oneToken "echo"
      (set_cursor 1
         (set_input "ab"
            (read "$ " "> "
               (create unit (Some {| cols := 80; rows := 24 |})
                  defaultOptions))))
    = Done c'
    /\ _input c' = "aechob".
Proof.
  destruct (typed_or_pasted_text_lands_at_the_cursor unit oneToken "echo"
              (set_cursor 1
                 (set_input "ab"
                    (read "$ " "> "
                       (create unit (Some {| cols := 80; rows := 24 |})
                          defaultOptions)))))
    as (c' & _ & Hinput & _ & Hpaste).
  - vm_compute. reflexivity.
  - vm_compute. reflexivity.
  - unfold cursorInRange. vm_compute. split; discriminate.
  - repeat constructor; vm_compute; try lia; discriminate.
  - exists c'. split; [apply Hpaste; vm_compute; reflexivity|].
    rewrite Hinput. vm_compute. reflexivity.
Defined.

Section SessionCompletion.

Context {Value : Type}.
Variable parse : string -> list token.

Local Abbreviation controller := (controller Value).

Lemma insertSorted_in (x y : string) (l : list string) :
  In x (insertSorted y l) -> x = y \/ In x l.
Proof.
  induction l as [|z l IH]; simpl.
  - intros [<- | []]. now left.
  - destruct (String.leb y z); simpl.
    + intros [<- | [<- | H]]; auto.
    + intros [<- | H]; [auto|]. destruct (IH H); auto.
Qed.

Lemma sortStrings_in (x : string) (l : list string) :
  In x (sortStrings l) -> In x l.
Proof.
  induction l as [|y l IH]; simpl; [auto|].
  intros H. apply insertSorted_in in H as [-> | H]; auto.
Qed.

Lemma handleTermData_tab (c : controller) :
  _active c = true ->
  _activeCharPrompt c = None ->
  _autocompleteHandlers c <> [] ->
  handleTermData parse (str1 TAB) c = handleTab parse c.
Proof.
  intros Hactive Hchar Hhandlers.
  unfold handleTermData, handleData. rewrite Hactive, Hchar.
  change (negb true) with false. cbv iota.
  change (len (str1 TAB) >? 3) with false. cbn [andb].
  change (charCodeAt0 (str1 TAB)) with (Some 9). cbv iota beta.
  change (9 =? 27) with false. change (9 <? 32) with true. cbn [orb].
  cbv iota. unfold handleControl.
  change (String.eqb (str1 TAB) (str1 CR)) with false.
  change (String.eqb (str1 TAB) (str1 DEL)) with false.
  change (String.eqb (str1 TAB) (str1 TAB)) with true. cbv iota.
  destruct (_autocompleteHandlers c); [contradiction | reflexivity].
Qed.


End SessionCompletion.

(** X29: the tab key with exactly one candidate completes the typed token to
    the candidate and adds a blank: what is put in at the cursor is the rest
    of the candidate after the length of the last token, and the last token
    followed by this rest is the candidate. *)
Theorem tab_completes_the_only_candidate (Value : Type)
    (parse : string -> list token) (candidate t : string)
    (c : controller Value) :
  _active c = true ->
  _activeCharPrompt c = None ->
  _autocompleteHandlers c <> [] ->
  cursorInRange c ->
  sortStrings
    (fst (collectAutocompleteCandidates parse (_autocompleteHandlers c)
            (substr2 (_input c) 0 (_cursor c))))
  = [candidate] ->
  getLastToken parse (substr2 (_input c) 0 (_cursor c)) = TStr t ->
  exists c',
    handleTermData parse (str1 TAB) c = Done c'
    /\ (t ++ substr candidate (len t))%string = candidate
    /\ _input c'
       = (substr2 (_input c) 0 (_cursor c)
          ++ (substr candidate (len t) ++ " ")
          ++ substr (_input c) (_cursor c))%string
    /\ _cursor c' = _cursor c + (len candidate - len t) + 1.
Proof.
  intros Hactive Hchar Hhandlers Hc Hone Ht.
  rewrite handleTermData_tab by assumption.
  unfold handleTab. rewrite Hone, Ht. cbn [tokenLength].
  assert (Hin : In candidate
                  (fst (collectAutocompleteCandidates parse
                          (_autocompleteHandlers c)
                          (substr2 (_input c) 0 (_cursor c))))).
  { apply sortStrings_in. rewrite Hone. now left. }
  rewrite collect_candidates in Hin. apply filter_In in Hin as [_ Hstarts].
  rewrite Ht in Hstarts. cbn [tokenToString] in Hstarts.
  pose proof (prefix_then_rest t candidate Hstarts) as Hrest.
  destruct (handleCursorInsert_shape (substr candidate (len t) ++ " ") c Hc)
    as [out ->].
  eexists. split; [reflexivity|]. split; [exact Hrest|].
  cbn [_input _cursor set_input set_cursor]. split; [reflexivity|].
  apply (f_equal len) in Hrest. rewrite len_append in *.
  change (len " ") with 1. lia.
Qed.

Lemma tab_completes_the_only_candidate_witness :
  exists c',
    handleTermData oneToken (str1 TAB)
      (addAutocompleteHandler
         {| fn_id := 1; fn := fun _ _ _ => Returned ["cd"; "ls"];
            args := @nil unit |}
         (set_cursor 1
            (set_input "c"
               (read "$ " "> "
                  (create unit (Some {| cols := 80; rows := 24 |})
                     defaultOptions)))))
    = Done c'
    /\ _input c' = "cd ".
Proof.
  destruct (tab_completes_the_only_candidate unit oneToken "cd" "c"
              (addAutocompleteHandler
                 {| fn_id := 1; fn := fun _ _ _ => Returned ["cd"; "ls"];
                    args := @nil unit |}
                 (set_cursor 1
                    (set_input "c"
                       (read "$ " "> "
                          (create unit (Some {| cols := 80; rows := 24 |})
                             defaultOptions))))))
    as (c' & Hrun & _ & Hinput & _).
  - vm_compute. reflexivity.
  - vm_compute. reflexivity.
  - vm_compute. discriminate.
  - unfold cursorInRange. vm_compute. split; discriminate.
  - vm_compute. reflexivity.
  - vm_compute. reflexivity.
  - exists c'. split; [exact Hrun|]. rewrite Hinput. vm_compute. reflexivity.
Defined.


